(** * The metawrap input stream of lib-fs (src/lib-fs/istream-metawrap.c)

    A metawrap stream sits on a parent stream whose content starts with a
    block of [key:value] lines closed by an empty line.  The first reads
    hand each pair to a callback; later reads pass the remaining bytes
    through.  This file embeds the three handlers of the C file
    ([metadata_header_read], [i_stream_metawrap_read],
    [i_stream_metawrap_stat]) and the constructor, over a model of the
    parent stream, and states the properties of the specification about
    them. *)

From Stdlib Require Import Ascii String.
From Stdlib Require Import ZArith List Bool Lia PeanoNat.
Import ListNotations.
Local Open Scope Z_scope.

(** ** Bytes, C strings and machine integers *)

#[warning="-notation-for-abbreviation"]
Notation bytes := (list ascii) (only parsing).

Definition LF : ascii := "010"%char.
Definition NUL : ascii := "000"%char.
Definition COLON : ascii := ":"%char.

(** Text literals for examples. *)
Definition txt (s : string) : bytes := list_ascii_of_string s.

(** [split_at c l] cuts [l] at the first occurrence of [c]: the bytes
    before it and the bytes after it ([memchr], [strchr]). *)
Fixpoint split_at (c : ascii) (l : bytes) : option (bytes * bytes) :=
  match l with
  | [] => None
  | x :: l' =>
      if Ascii.eqb x c then Some ([], l')
      else match split_at c l' with
           | Some (a, b) => Some (x :: a, b)
           | None => None
           end
  end.

(** What a [char *] pointing at these bytes denotes: the bytes up to the
    first NUL. *)
Fixpoint cstr (l : bytes) : bytes :=
  match l with
  | [] => []
  | x :: l' => if Ascii.eqb x NUL then [] else x :: cstr l'
  end.

(** [*line == '\0'] *)
Definition cstr_empty (l : bytes) : bool :=
  match l with
  | [] => true
  | x :: _ => Ascii.eqb x NUL
  end.

(** [p = strchr(line, c); *p++ = '\0';] leaves two C strings: [line]
    (the text before [c]) and [p] (the text after it). *)
Definition strchr_cut (c : ascii) (line : bytes) : option (bytes * bytes) :=
  split_at c (cstr line).

Definition EINVAL : Z := 22.

(** [uoff_t] is an unsigned 64-bit integer, [off_t] and [ssize_t] are
    signed. *)
Definition u64 (z : Z) : Z := z mod 2 ^ 64.
Definition s64 (z : Z) : Z := (z + 2 ^ 63) mod 2 ^ 64 - 2 ^ 63.
Arguments u64 : simpl never.
Arguments s64 : simpl never.

(** ** Outcomes

    An [i_assert] that fails panics the process.  The loops of the model
    carry a counter; [OutOfFuel] is what they answer when it runs out
    (the theorems below show it never does). *)

Inductive assert_site : Type :=
| AssertParentNotBlocking   (* i_assert(!mstream->istream.parent->blocking) *)
| AssertVOffsetZero         (* i_assert(stream->istream.v_offset == 0) *)
| AssertSizeGeStart.        (* i_assert((uoff_t)st_size >= start_offset) *)

Inductive result (A : Type) : Type :=
| Ret (a : A)
| Abort (site : assert_site)
| OutOfFuel.
Arguments Ret {A} a.
Arguments Abort {A} site.
Arguments OutOfFuel {A}.

Definition bind {A B} (r : result A) (k : A -> result B) : result B :=
  match r with
  | Ret a => k a
  | Abort s => Abort s
  | OutOfFuel => OutOfFuel
  end.

Notation "' pat <- r ;; k" := (bind r (fun x => match x with pat => k end))
  (at level 61, pat pattern, r at next level, right associativity).

(** ** The parent stream *)

Module Src.

(** Modelled from the spec: the parent stream.  [struct istream], its
    line reader, seek and stat are code of lib/istream.c, a file this
    development does not have.  The specification lists what the filter
    consumes of its source: [read_next_line() -> line | EndOfInput |
    WouldBlock], [seek(absolute_offset)], [current_absolute_offset()],
    [is_blocking()], [is_at_end()], [error_code()] and [stat(exact)].
    The model is a stream over bytes in memory: [buf] holds every byte
    that has arrived, counted from absolute offset 0; [pending] lists
    what the following reads bring, one chunk per read, an empty chunk
    being a read that finds nothing yet; when [pending] is used up the
    stream is at its end and reports [fail_errno] (0 for a clean end).
    [pos] is the read position, [st_size] what stat answers for each
    value of [exact] ([None] when stat fails).  The buffer has no bound,
    so no line is too long for it. *)
Record t : Type := mk {
  buf : bytes;
  pending : list bytes;
  fail_errno : Z;
  st_size : bool -> option Z;
  blocking : bool;
  readable_fd : bool;
  max_buffer_size : Z;
  pos : nat;
  eof : bool;
  stream_errno : Z
}.

(** The stream [s] with its read position at [n]. *)
Definition set_pos (s : t) (n : nat) : t :=
  mk (buf s) (pending s) (fail_errno s) (st_size s) (blocking s)
     (readable_fd s) (max_buffer_size s) n (eof s) (stream_errno s).

(** The whole byte content of the stream. *)
Definition content (s : t) : bytes := buf s ++ concat (pending s).

(** Modelled from the spec: [current_absolute_offset()], the field
    [v_offset] of the parent. *)
Definition v_offset (s : t) : Z := Z.of_nat (pos s).

(** Modelled from the spec: [i_stream_get_data], the bytes that have
    arrived and are not yet consumed. *)
Definition unread (s : t) : bytes := skipn (pos s) (buf s).

(** Modelled from the spec: one read of the parent ([i_stream_read]):
    the number of bytes that arrived, 0 when a non-blocking source has
    nothing yet, -1 at the end of input or on error, with [eof] and
    [stream_errno] set accordingly. *)
Definition i_stream_read (s : t) : Z * t :=
  match pending s with
  | [] =>
      (-1, mk (buf s) [] (fail_errno s) (st_size s) (blocking s)
              (readable_fd s) (max_buffer_size s) (pos s) true
              (fail_errno s))
  | c :: rest =>
      (Z.of_nat (length c),
       mk (buf s ++ c) rest (fail_errno s) (st_size s) (blocking s)
          (readable_fd s) (max_buffer_size s) (pos s) false 0)
  end.

(** Modelled from the spec: [i_stream_next_line], the next complete
    line among the bytes that have arrived, without the line feed that
    ends it; the read position moves past that line feed. *)
Definition i_stream_next_line (s : t) : option (bytes * t) :=
  match split_at LF (unread s) with
  | Some (line, _) => Some (line, set_pos s (pos s + length line + 1))
  | None => None
  end.

(** Modelled from the spec: the loop of [read_next_line()]
    ([i_stream_read_next_line]): return the next line, reading the
    source as long as reads bring bytes; [None] when the source is at
    its end (a last line without line feed is not returned) or has
    nothing yet.  [n] counts the pending chunks, which bound the
    reads. *)
Fixpoint read_next_line_loop (n : nat) (s : t) : option bytes * t :=
  match i_stream_next_line s with
  | Some (line, s') => (Some line, s')
  | None =>
      let (ret, s') := i_stream_read s in
      if ret <=? 0 then (None, s')
      else match n with
           | O => (None, s')
           | S n' => read_next_line_loop n' s'
           end
  end.

(** Modelled from the spec: [read_next_line() -> line | EndOfInput |
    WouldBlock]; the last two answer [None] and differ by [eof]. *)
Definition i_stream_read_next_line (s : t) : option bytes * t :=
  read_next_line_loop (length (pending s)) s.

(** Modelled from the spec: [seek(absolute_offset)]. *)
Definition i_stream_seek (s : t) (off : Z) : t := set_pos s (Z.to_nat off).

(** Modelled from the spec: [stat(exact) -> {size, ...}]; [None] when
    stat fails. *)
Definition i_stream_stat (s : t) (exact : bool) : option Z :=
  st_size s exact.

End Src.

(** ** The metawrap stream *)

Section Metawrap.

(** The callback gets the key, the value and the context; it returns
    nothing and acts on the context. *)
Context {C : Type}.

Definition metawrap_callback_t : Type := bytes -> bytes -> C -> C.

(** [struct metawrap_istream], with the fields of the embedded
    [struct istream_private] and of its [struct istream] the handlers
    use.  [buffer] is the window on the parent's buffer the stream
    points at. *)
Record metawrap_istream : Type := mkm {
  parent : Src.t;
  v_offset : Z;
  stream_errno : Z;
  eof : bool;
  blocking : bool;
  seekable : bool;
  readable_fd : bool;
  max_buffer_size : Z;
  buffer : bytes;
  skip : nat;
  pos : nat;
  abs_start_offset : Z;
  statbuf_st_size : Z;
  callback : metawrap_callback_t;
  context : C;
  start_offset : Z;
  in_metadata : bool
}.

Definition set_parent (m : metawrap_istream) (p : Src.t) :=
  mkm p (v_offset m) (stream_errno m) (eof m) (blocking m) (seekable m)
      (readable_fd m) (max_buffer_size m) (buffer m) (skip m) (pos m)
      (abs_start_offset m) (statbuf_st_size m) (callback m) (context m)
      (start_offset m) (in_metadata m).

Definition set_v_offset (m : metawrap_istream) (z : Z) :=
  mkm (parent m) z (stream_errno m) (eof m) (blocking m) (seekable m)
      (readable_fd m) (max_buffer_size m) (buffer m) (skip m) (pos m)
      (abs_start_offset m) (statbuf_st_size m) (callback m) (context m)
      (start_offset m) (in_metadata m).

Definition set_stream_errno (m : metawrap_istream) (e : Z) :=
  mkm (parent m) (v_offset m) e (eof m) (blocking m) (seekable m)
      (readable_fd m) (max_buffer_size m) (buffer m) (skip m) (pos m)
      (abs_start_offset m) (statbuf_st_size m) (callback m) (context m)
      (start_offset m) (in_metadata m).

Definition set_eof (m : metawrap_istream) (b : bool) :=
  mkm (parent m) (v_offset m) (stream_errno m) b (blocking m) (seekable m)
      (readable_fd m) (max_buffer_size m) (buffer m) (skip m) (pos m)
      (abs_start_offset m) (statbuf_st_size m) (callback m) (context m)
      (start_offset m) (in_metadata m).

Definition set_window (m : metawrap_istream) (b : bytes) (sk ps : nat) :=
  mkm (parent m) (v_offset m) (stream_errno m) (eof m) (blocking m)
      (seekable m) (readable_fd m) (max_buffer_size m) b sk ps
      (abs_start_offset m) (statbuf_st_size m) (callback m) (context m)
      (start_offset m) (in_metadata m).

Definition set_abs_start_offset (m : metawrap_istream) (z : Z) :=
  mkm (parent m) (v_offset m) (stream_errno m) (eof m) (blocking m)
      (seekable m) (readable_fd m) (max_buffer_size m) (buffer m) (skip m)
      (pos m) z (statbuf_st_size m) (callback m) (context m)
      (start_offset m) (in_metadata m).

Definition set_statbuf_st_size (m : metawrap_istream) (z : Z) :=
  mkm (parent m) (v_offset m) (stream_errno m) (eof m) (blocking m)
      (seekable m) (readable_fd m) (max_buffer_size m) (buffer m) (skip m)
      (pos m) (abs_start_offset m) z (callback m) (context m)
      (start_offset m) (in_metadata m).

Definition set_context (m : metawrap_istream) (c : C) :=
  mkm (parent m) (v_offset m) (stream_errno m) (eof m) (blocking m)
      (seekable m) (readable_fd m) (max_buffer_size m) (buffer m) (skip m)
      (pos m) (abs_start_offset m) (statbuf_st_size m) (callback m) c
      (start_offset m) (in_metadata m).

Definition set_start_offset (m : metawrap_istream) (z : Z) :=
  mkm (parent m) (v_offset m) (stream_errno m) (eof m) (blocking m)
      (seekable m) (readable_fd m) (max_buffer_size m) (buffer m) (skip m)
      (pos m) (abs_start_offset m) (statbuf_st_size m) (callback m)
      (context m) z (in_metadata m).

Definition set_in_metadata (m : metawrap_istream) (b : bool) :=
  mkm (parent m) (v_offset m) (stream_errno m) (eof m) (blocking m)
      (seekable m) (readable_fd m) (max_buffer_size m) (buffer m) (skip m)
      (pos m) (abs_start_offset m) (statbuf_st_size m) (callback m)
      (context m) (start_offset m) b.

(** *** metadata_header_read

    The [while] loop takes one line per turn; every turn that goes on
    has consumed at least the line feed of its line, so the bytes left
    in the parent bound the number of turns. *)
Fixpoint header_loop (fuel : nat) (m : metawrap_istream)
  : result (Z * metawrap_istream) :=
  match fuel with
  | O => OutOfFuel
  | S fuel' =>
      let (line, p) := Src.i_stream_read_next_line (parent m) in
      let m := set_parent m p in
      match line with
      | Some line =>
          if cstr_empty line then Ret (1, m)
          else
            match strchr_cut COLON line with
            | None => Ret (-1, set_stream_errno m EINVAL)
            | Some (key, value) =>
                header_loop fuel'
                  (set_context m (callback m key value (context m)))
            end
      | None =>
          if Src.eof p then
            Ret (-1, set_eof (set_stream_errno m (Src.stream_errno p)) true)
          else if Src.blocking p then Abort AssertParentNotBlocking
          else Ret (0, m)
      end
  end.

(** The bytes left in the parent, plus one. *)
Definition header_fuel (p : Src.t) : nat :=
  S (length (Src.content p) - Src.pos p).

Definition metadata_header_read (m : metawrap_istream)
  : result (Z * metawrap_istream) :=
  header_loop (header_fuel (parent m)) m.

(** *** i_stream_read_copy_from_parent *)

(** Modelled from the spec: the [do .. while] of the library helper
    [i_stream_read_copy_from_parent] (lib/istream.c, not among the
    sources): read the parent until it brings bytes beyond the ones the
    stream already shows, or has none. *)
Fixpoint copy_loop (n : nat) (m : metawrap_istream) : Z * metawrap_istream :=
  let (ret, p) := Src.i_stream_read (parent m) in
  let m := set_eof (set_stream_errno (set_parent m p) (Src.stream_errno p))
                   (Src.eof p) in
  let m := set_window m (Src.unread p) (skip m) (pos m) in
  if (length (buffer m) <=? pos m)%nat && (0 <? ret) then
    match n with
    | O => (ret, m)
    | S n' => copy_loop n' m
    end
  else (ret, m).

(** Modelled from the spec: the passthrough read of section 4.2, which
    the C code delegates to [i_stream_read_copy_from_parent]
    (lib/istream.c): show the parent's unconsumed bytes as the stream's
    own, reading the parent when there is nothing new; the result is the
    number of new bytes, 0 when the parent has nothing yet, -1 at its end
    or on its error, with [eof] and [stream_errno] copied from the
    parent.  As in the header read of the C file, the end of input is
    answered by -1 and 0 is kept for a parent that has nothing yet. *)
Definition i_stream_read_copy_from_parent (m : metawrap_istream)
  : Z * metawrap_istream :=
  let m := set_window m (Src.unread (parent m)) 0 (pos m - skip m) in
  let (ret, m) :=
    if (pos m <? length (buffer m))%nat then (0, m)
    else copy_loop (length (Src.pending (parent m))) m in
  let ret :=
    if (pos m <? length (buffer m))%nat
    then Z.of_nat (length (buffer m) - pos m)
    else if ret =? 0 then 0 else -1 in
  (ret, set_window m (buffer m) (skip m) (length (buffer m))).

(** *** i_stream_metawrap_read *)
Definition i_stream_metawrap_read (m : metawrap_istream)
  : result (Z * metawrap_istream) :=
  let m :=
    set_parent m
      (Src.i_stream_seek (parent m) (u64 (start_offset m + v_offset m))) in
  if in_metadata m then
    '(ret, m) <- metadata_header_read m ;;
    if negb (v_offset m =? 0) then Abort AssertVOffsetZero
    else
      let m := set_start_offset m (Src.v_offset (parent m)) in
      if ret <=? 0 then Ret (ret, m)
      else
        (* this stream is kind of silently skipping over the metadata *)
        let m :=
          set_abs_start_offset m (u64 (abs_start_offset m + start_offset m)) in
        let m := set_in_metadata m false in
        Ret (i_stream_read_copy_from_parent m)
  else
    (* after metadata header it's all just passthrough *)
    Ret (i_stream_read_copy_from_parent m).

(** Modelled from the spec: the read entry point of the stream library
    ([i_stream_read], lib/istream.c), through which callers and
    [i_stream_metawrap_stat] reach the read handler: it clears the end
    and error marks, runs the handler, and marks the end when the
    handler fails with an error code.  It keeps no memory of an earlier
    failure; the properties below that depend on a second read after a
    failure are also stated on the handler itself. *)
Definition i_stream_read (m : metawrap_istream)
  : result (Z * metawrap_istream) :=
  let m := set_stream_errno (set_eof m false) 0 in
  '(ret, m) <- i_stream_metawrap_read m ;;
  if (ret =? -1) && negb (stream_errno m =? 0)
  then Ret (ret, set_eof m true)
  else Ret (ret, m).

(** *** i_stream_metawrap_stat *)
Definition i_stream_metawrap_stat (m : metawrap_istream) (exact : bool)
  : result (Z * metawrap_istream) :=
  match Src.i_stream_stat (parent m) exact with
  | None => Ret (-1, m)
  | Some st =>
      let m := set_statbuf_st_size m st in
      let finish (m : metawrap_istream) :=
        if u64 (statbuf_st_size m) <? start_offset m
        then Abort AssertSizeGeStart
        else Ret (0, set_statbuf_st_size m
                       (s64 (statbuf_st_size m - start_offset m))) in
      if in_metadata m then
        '(ret, m) <- i_stream_read m ;;
        if ret <? 0 then Ret (-1, m)
        else if ret =? 0 then Ret (0, set_statbuf_st_size m (-1))
        else finish m
      else finish m
  end.

(** *** i_stream_create_metawrap

    [i_new] zeroes the structure; the constructor sets the fields below
    and [i_stream_create] (lib/istream.c) attaches the parent. *)
Definition i_stream_create_metawrap (input : Src.t)
    (cb : metawrap_callback_t) (ctx : C) : metawrap_istream :=
  {| parent := input;
     v_offset := 0;
     stream_errno := 0;
     eof := false;
     blocking := Src.blocking input;
     seekable := false;
     readable_fd := Src.readable_fd input;
     max_buffer_size := Src.max_buffer_size input;
     buffer := [];
     skip := 0;
     pos := 0;
     abs_start_offset := Src.v_offset input;
     statbuf_st_size := 0;
     callback := cb;
     context := ctx;
     start_offset := 0;
     in_metadata := true |}.

(** ** A reader of the stream *)

(** Modelled from the spec: [i_stream_get_data], the bytes the stream
    shows and the caller has not skipped. *)
Definition i_stream_get_data (m : metawrap_istream) : bytes :=
  skipn (skip m) (firstn (pos m) (buffer m)).

(** Modelled from the spec: [i_stream_skip], the caller consuming bytes
    it was shown (at most all of them): the logical offset [v_offset]
    moves with them. *)
Definition i_stream_skip (m : metawrap_istream) (n : nat) : metawrap_istream :=
  let n := Nat.min n (pos m - skip m) in
  set_v_offset (set_window m (buffer m) (skip m + n) (pos m))
               (v_offset m + Z.of_nat n).

(** Reading the stream end to end: read, take what is shown, skip it,
    until a read answers a negative number.  A read that answers 0 is
    tried again.  The result is the bytes taken, what the last read
    answered and the stream as it is left. *)
Fixpoint read_all (fuel : nat) (m : metawrap_istream) (acc : bytes)
  : result (bytes * (Z * metawrap_istream)) :=
  match fuel with
  | O => OutOfFuel
  | S fuel' =>
      '(ret, m) <- i_stream_read m ;;
      if ret <? 0 then Ret (acc, (ret, m))
      else
        let data := i_stream_get_data m in
        read_all fuel' (i_stream_skip m (length data)) (acc ++ data)
  end.

End Metawrap.

Arguments metawrap_istream : clear implicits.
Arguments metawrap_callback_t : clear implicits.

(** ** Scenarios of the specification *)

(** The callback that records its calls. *)
Definition record_call : metawrap_callback_t (list (bytes * bytes)) :=
  fun key value log => log ++ [(key, value)].

(** A source whose content is all there, as a blocking stream. *)
Definition mem_source (content : bytes) : Src.t :=
  Src.mk [] [content] 0 (fun _ => Some (Z.of_nat (length content)))
         true false 8192 0 false 0.

Definition scenario_A : bytes :=
  txt "from:x" ++ LF :: txt "subject:hi" ++ LF :: LF :: txt "BODY".

Definition scenario_B : bytes := LF :: txt "BODY".
Definition scenario_C : bytes := txt "badline" ++ LF :: txt "BODY".

(** A non-blocking source: [arrived] is there, [chunks] come with the
    following reads, and the source ends with error code [err]. *)
Definition nb_source (arrived : bytes) (chunks : list bytes) (err : Z) : Src.t :=
  Src.mk arrived chunks err
         (fun _ => Some (Z.of_nat (length (arrived ++ concat chunks))))
         false false 8192 0 false 0.

(** ** The wire format, as the specification words it *)

(** One header line [key:value] with its line feed. *)
Definition header_line (kv : bytes * bytes) : bytes :=
  fst kv ++ COLON :: snd kv ++ [LF].

(** The lines of the pairs, in order. *)
Definition header_lines (h : list (bytes * bytes)) : bytes :=
  flat_map header_line h.

(** A header block: the lines, then one empty line. *)
Definition header_block (h : list (bytes * bytes)) : bytes :=
  header_lines h ++ [LF].

Definition no_byte (c : ascii) (l : bytes) : bool :=
  forallb (fun x => negb (Ascii.eqb x c)) l.

(** Keys and values are text: no line feed and no NUL; a key has no
    colon (the value may). *)
Definition valid_entry (kv : bytes * bytes) : bool :=
  no_byte LF (fst kv) && no_byte NUL (fst kv) && no_byte COLON (fst kv)
  && no_byte LF (snd kv) && no_byte NUL (snd kv).

Definition valid_header (h : list (bytes * bytes)) : bool :=
  forallb valid_entry h.

(** How a header ends. *)
Inductive header_end : Type :=
| HComplete (payload : bytes)   (* an empty line, then the payload *)
| HFormat (after : bytes)       (* a line without colon *)
| HTruncated.                   (* the content ends first *)

(** [parses cb content ctx ctx' e]: reading [content] line by line from
    context [ctx] hands the pairs to [cb], which leaves context [ctx'],
    and the header ends as [e]. *)
Inductive parses {C} (cb : metawrap_callback_t C)
  : bytes -> C -> C -> header_end -> Prop :=
| parses_truncated : forall content ctx,
    split_at LF content = None ->
    parses cb content ctx ctx HTruncated
| parses_blank : forall content ctx line r,
    split_at LF content = Some (line, r) ->
    cstr_empty line = true ->
    parses cb content ctx ctx (HComplete r)
| parses_bad : forall content ctx line r,
    split_at LF content = Some (line, r) ->
    cstr_empty line = false ->
    strchr_cut COLON line = None ->
    parses cb content ctx ctx (HFormat r)
| parses_pair : forall content ctx line r key value ctx' e,
    split_at LF content = Some (line, r) ->
    cstr_empty line = false ->
    strchr_cut COLON line = Some (key, value) ->
    parses cb r (cb key value ctx) ctx' e ->
    parses cb content ctx ctx' e.

(** The context after the callback has seen the pairs of [h] in order. *)
Definition feed {C} (cb : metawrap_callback_t C) (h : list (bytes * bytes))
    (ctx : C) : C :=
  fold_left (fun c kv => cb (fst kv) (snd kv) c) h ctx.

(** ** Operations a caller can apply to one stream *)

Inductive op : Type :=
| OpRead                 (* the read handler *)
| OpStat (exact : bool)  (* the stat handler *)
| OpSkip (n : nat).      (* the caller skips bytes it was shown *)

Definition run_op {C} (o : op) (m : metawrap_istream C)
  : result (metawrap_istream C) :=
  match o with
  | OpRead => '(_, m') <- i_stream_read m ;; Ret m'
  | OpStat exact => '(_, m') <- i_stream_metawrap_stat m exact ;; Ret m'
  | OpSkip n => Ret (i_stream_skip m n)
  end.

Fixpoint run_ops {C} (ops : list op) (m : metawrap_istream C)
  : result (metawrap_istream C) :=
  match ops with
  | [] => Ret m
  | o :: ops' => bind (run_op o m) (run_ops ops')
  end.

(** Computing with the fields of the two records. *)
Ltac mw_simpl :=
  simpl in *; unfold Src.unread, Src.v_offset in *; simpl in *.

(** ** Predicates on sources and streams

    The conditions the theorems put on a source, and the relations
    between the states of a stream the proofs go through. *)

(** The read position lies within the bytes that have arrived. *)
Definition wf (p : Src.t) : Prop := (Src.pos p <= length (Src.buf p))%nat.

(** The content from the read position on. *)
Definition rest (p : Src.t) : bytes := skipn (Src.pos p) (Src.content p).

(** What no operation of the stream changes. *)
Definition same_static (p p' : Src.t) : Prop :=
  Src.fail_errno p' = Src.fail_errno p /\
  Src.st_size p' = Src.st_size p /\
  Src.blocking p' = Src.blocking p.

(** A blocking source never answers a read with "nothing yet". *)
Definition well_behaved (p : Src.t) : Prop :=
  Src.blocking p = true -> ~ In [] (Src.pending p).

(** What [Src.read_next_line_loop] guarantees about its answer [res]
    and the stream [p'] it leaves, started on [p]. *)
Definition line_read (p : Src.t) (res : option bytes) (p' : Src.t) : Prop :=
  Src.content p' = Src.content p /\
  same_static p p' /\
  (exists pre, Src.pending p = pre ++ Src.pending p') /\
  (length (Src.buf p) <= length (Src.buf p'))%nat /\
  match res with
  | Some line =>
      Src.pos p' = (Src.pos p + length line + 1)%nat /\
      wf p' /\
      (wf p -> split_at LF (rest p) = Some (line, rest p'))
  | None =>
      Src.pos p' = Src.pos p /\
      ((Src.eof p' = true /\ Src.pending p' = [] /\
        Src.stream_errno p' = Src.fail_errno p /\
        (wf p -> split_at LF (rest p) = None))
       \/
       (Src.eof p' = false /\
        exists pre, Src.pending p = pre ++ [] :: Src.pending p'))
  end.

(** What the passthrough read leaves alone, in any state. *)
Definition copy_frame {C} (m m' : metawrap_istream C) : Prop :=
  v_offset m' = v_offset m /\
  start_offset m' = start_offset m /\
  in_metadata m' = in_metadata m /\
  context m' = context m /\
  callback m' = callback m /\
  statbuf_st_size m' = statbuf_st_size m /\
  Src.content (parent m') = Src.content (parent m) /\
  same_static (parent m) (parent m') /\
  (length (Src.buf (parent m)) <= length (Src.buf (parent m')))%nat /\
  Src.pos (parent m') = Src.pos (parent m).

(** The content of the source fits the offsets of the stream. *)
Definition sized (p : Src.t) : Prop :=
  Z.of_nat (length (Src.content p)) < 2 ^ 64.

(** A stream past its header, whose caller has skipped all it was shown;
    [q] is the absolute offset it stands at. *)
Definition passing {C} (m : metawrap_istream C) (q : nat) : Prop :=
  in_metadata m = false /\
  pos m = skip m /\
  start_offset m + v_offset m = Z.of_nat q /\
  (q <= length (Src.buf (parent m)))%nat /\
  sized (parent m).

(** How the stream stands once a read has answered -1 at the end of the
    payload. *)
Definition ended {C} (m m' : metawrap_istream C) : Prop :=
  context m' = context m /\ callback m' = callback m /\
  in_metadata m' = false /\ start_offset m' = start_offset m /\
  eof m' = true /\ stream_errno m' = Src.fail_errno (parent m).

(** A stream still in its header, as the reads leave it. *)
Definition heading {C} (m : metawrap_istream C) : Prop :=
  in_metadata m = true /\
  v_offset m = 0 /\
  skip m = 0%nat /\ pos m = 0%nat /\
  start_offset m = Z.of_nat (Src.pos (parent m)) /\
  wf (parent m) /\ sized (parent m) /\ well_behaved (parent m).

(** A stream in its header over a source that is at its end with no
    complete line left. *)
Definition stuck {C} (m : metawrap_istream C) : Prop :=
  heading m /\
  Src.pending (parent m) = [] /\
  split_at LF (rest (parent m)) = None.

(** What reading to the end answers, by the way the header ends. *)
Definition read_outcome {C} (m : metawrap_istream C) (ctx' : C)
    (e : header_end) (acc : bytes)
    (r : result (bytes * (Z * metawrap_istream C))) : Prop :=
  exists m',
    context m' = ctx' /\
    match e with
    | HComplete B =>
        r = Ret (acc ++ B, (-1, m')) /\
        in_metadata m' = false /\
        start_offset m'
        = Z.of_nat (length (Src.content (parent m)) - length B) /\
        eof m' = true /\
        stream_errno m' = Src.fail_errno (parent m)
    | HFormat after =>
        r = Ret (acc, (-1, m')) /\
        in_metadata m' = true /\
        start_offset m'
        = Z.of_nat (length (Src.content (parent m)) - length after) /\
        v_offset m' = 0 /\
        stream_errno m' = EINVAL
    | HTruncated =>
        r = Ret (acc, (-1, m')) /\
        in_metadata m' = true /\
        v_offset m' = 0 /\
        eof m' = true /\
        stream_errno m' = Src.fail_errno (parent m) /\
        stuck m' /\
        Src.fail_errno (parent m') = Src.fail_errno (parent m)
    end.

(** A source nobody has read yet. *)
Definition fresh (src : Src.t) : Prop :=
  Src.pos src = 0%nat /\ sized src /\ well_behaved src.

(** Discharging [fresh] on a concrete source. *)
Ltac fresh_source :=
  split; [reflexivity|];
  split; [reflexivity|];
  first [ intros H; discriminate H
        | intros _ H; simpl in H; intuition discriminate ].

(** [start_offset] lies within the bytes of the parent that have
    arrived. *)
Definition inv {C} (m : metawrap_istream C) : Prop :=
  0 <= start_offset m <= Z.of_nat (length (Src.buf (parent m))) /\
  sized (parent m).

(** What one operation does to [start_offset] and to the source. *)
Definition step_ok {C} (m m' : metawrap_istream C) : Prop :=
  inv m' /\
  start_offset m <= start_offset m' /\
  (in_metadata m = false ->
   start_offset m' = start_offset m /\ in_metadata m' = false) /\
  Src.content (parent m') = Src.content (parent m) /\
  same_static (parent m) (parent m').

(** The source reports a size that covers its content. *)
Definition honest (p : Src.t) : Prop :=
  forall exact sz,
    Src.st_size p exact = Some sz ->
    Z.of_nat (length (Src.content p)) <= sz < 2 ^ 63.

(** ** What a caller observes *)

(** What a test sees of a stream after an operation: the answer, the
    context, [stream_errno], [eof], [in_metadata], [start_offset] and the
    bytes shown. *)
Definition observe {C} (r : result (Z * metawrap_istream C))
  : option (Z * C * Z * bool * bool * Z * bytes) :=
  match r with
  | Ret (ret, m) =>
      Some (ret, context m, stream_errno m, eof m, in_metadata m,
            start_offset m, i_stream_get_data m)
  | _ => None
  end.

(** What a test sees of reading to the end: the bytes delivered, the
    answer of the last read, the context, [stream_errno] and
    [in_metadata]. *)
Definition outcome_of {C} (r : result (bytes * (Z * metawrap_istream C)))
  : option (bytes * Z * C * Z * bool) :=
  match r with
  | Ret (out, (ret, m)) =>
      Some (out, ret, context m, stream_errno m, in_metadata m)
  | _ => None
  end.

(** The next operation on the stream an operation has left. *)
Definition and_then {C} (r : result (Z * metawrap_istream C))
    (f : metawrap_istream C -> result (Z * metawrap_istream C))
  : result (Z * metawrap_istream C) :=
  bind r (fun x => f (snd x)).

(** The stream an operation has left ([d] when it has left none). *)
Definition state_of {C} (r : result (Z * metawrap_istream C))
    (d : metawrap_istream C) : metawrap_istream C :=
  match r with
  | Ret (_, m) => m
  | _ => d
  end.

(** The stream a sequence of operations has left ([d] when it has left
    none). *)
Definition final {C} (r : result (metawrap_istream C))
    (d : metawrap_istream C) : metawrap_istream C :=
  match r with
  | Ret m => m
  | _ => d
  end.

(** Comparing two literal integers. *)
Ltac zcmp :=
  first [ apply Z.leb_le | apply Z.ltb_lt ]; vm_compute; reflexivity.



(** What a test sees of stat: the answer and the size it reports. *)
Definition observe_stat {C} (r : result (Z * metawrap_istream C))
  : option (Z * Z * bool * Z) :=
  match r with
  | Ret (ret, m) =>
      Some (ret, statbuf_st_size m, in_metadata m, start_offset m)
  | _ => None
  end.

(** A stream that has failed on a header cut short: it is [stuck], and
    its error marks are those of the source's end. *)
Definition failed {C} (m : metawrap_istream C) : Prop :=
  stuck m /\
  stream_errno m = Src.fail_errno (parent m) /\
  eof m = true.

(** ** What the operations keep

    The relations between the states of a stream before and after any
    sequence of reads, stats and skips. *)

(** The fields the constructor sets and no handler writes. *)
Definition kept {C} (m m' : metawrap_istream C) : Prop :=
  blocking m' = blocking m /\
  seekable m' = seekable m /\
  readable_fd m' = readable_fd m /\
  max_buffer_size m' = max_buffer_size m /\
  callback m' = callback m.

(** The reads of the parent only use up its pending chunks. *)
Definition shrunk (p p' : Src.t) : Prop :=
  exists pre, Src.pending p = pre ++ Src.pending p'.

(** What an operation does to a stream: the source keeps its content,
    the stream leaves its header at most once, and [abs_start_offset]
    moves with that step only. *)
Definition moved {C} (m m' : metawrap_istream C) : Prop :=
  kept m m' /\
  Src.content (parent m') = Src.content (parent m) /\
  same_static (parent m) (parent m') /\
  shrunk (parent m) (parent m') /\
  (in_metadata m = false ->
   in_metadata m' = false /\ context m' = context m /\
   start_offset m' = start_offset m /\
   abs_start_offset m' = abs_start_offset m) /\
  (in_metadata m' = true ->
   in_metadata m = true /\ abs_start_offset m' = abs_start_offset m) /\
  (in_metadata m = true -> in_metadata m' = false ->
   abs_start_offset m' = u64 (abs_start_offset m + start_offset m')).

(** A stream as the operations leave it, started from its creation over
    a fresh source. *)
Definition steady {C} (m : metawrap_istream C) : Prop :=
  sized (parent m) /\ well_behaved (parent m) /\ inv m /\
  (in_metadata m = true -> heading m).

(** The operations that are calls of a handler. *)
Definition is_handler (o : op) : bool :=
  match o with
  | OpSkip _ => false
  | _ => true
  end.

(** The window of a stream past its header: it shows the bytes of the
    content from the absolute offset [q0] on, and the logical offset
    counts from [start_offset]. *)
Definition shown {C} (m : metawrap_istream C) (q0 : nat) : Prop :=
  (skip m <= pos m)%nat /\
  start_offset m + v_offset m = Z.of_nat (q0 + skip m) /\
  firstn (pos m) (buffer m)
  = firstn (pos m) (skipn q0 (Src.content (parent m))) /\
  (q0 + pos m <= length (Src.buf (parent m)))%nat.

(** A stream over a content whose header is complete: in its header the
    lines left hand the callback what leads to the context [ctxH] and
    end before the payload [B]; past its header the context is [ctxH],
    [start_offset] is where [B] starts and the window is on [B]. *)
Definition on_track {C} (cb : metawrap_callback_t C) (ctxH : C) (B : bytes)
    (m : metawrap_istream C) : Prop :=
  callback m = cb /\
  (in_metadata m = true ->
   parses cb (rest (parent m)) (context m) ctxH (HComplete B)) /\
  (in_metadata m = false ->
   context m = ctxH /\
   start_offset m
   = Z.of_nat (length (Src.content (parent m)) - length B) /\
   0 <= v_offset m /\
   exists q0, shown m q0).

(** ** Lists of bytes *)

Lemma split_at_sound c l a b :
  split_at c l = Some (a, b) -> l = a ++ c :: b /\ no_byte c a = true.
Proof.
  revert a b; induction l as [|x l IH]; simpl; intros a b H; [discriminate|].
  destruct (Ascii.eqb x c) eqn:E.
  - apply Ascii.eqb_eq in E; subst x. inversion H; subst. auto.
  - destruct (split_at c l) as [[a' b']|]; [|discriminate].
    injection H as <- <-. destruct (IH a' b' eq_refl) as [-> Hn].
    simpl. rewrite E, Hn. auto.
Qed.

Lemma split_at_app_some c l l' a b :
  split_at c l = Some (a, b) -> split_at c (l ++ l') = Some (a, b ++ l').
Proof.
  revert a b; induction l as [|x l IH]; simpl; intros a b H; [discriminate|].
  destruct (Ascii.eqb x c); [inversion H; reflexivity|].
  destruct (split_at c l) as [[a' b']|]; [|discriminate].
  injection H as <- <-. rewrite (IH a' b' eq_refl). reflexivity.
Qed.

Lemma split_at_app_none c l l' :
  split_at c l = None ->
  split_at c (l ++ l') =
  match split_at c l' with Some (a, b) => Some (l ++ a, b) | None => None end.
Proof.
  induction l as [|x l IH]; simpl; intros H.
  - destruct (split_at c l') as [[a b]|]; reflexivity.
  - destruct (Ascii.eqb x c); [discriminate|].
    destruct (split_at c l) as [[a' b']|]; [discriminate|].
    rewrite IH by reflexivity.
    destruct (split_at c l') as [[a b]|]; reflexivity.
Qed.

Lemma split_at_here c a b :
  no_byte c a = true -> split_at c (a ++ c :: b) = Some (a, b).
Proof.
  induction a as [|x a IH]; simpl; intros H.
  - rewrite Ascii.eqb_refl. reflexivity.
  - apply andb_true_iff in H as [Hx Ha].
    apply negb_true_iff in Hx. rewrite Hx, IH by assumption. reflexivity.
Qed.

Lemma split_at_absent c l : no_byte c l = true -> split_at c l = None.
Proof.
  induction l as [|x l IH]; simpl; intros H; [reflexivity|].
  apply andb_true_iff in H as [Hx Hl].
  apply negb_true_iff in Hx. rewrite Hx, IH by assumption. reflexivity.
Qed.

Lemma no_byte_app c a b : no_byte c (a ++ b) = no_byte c a && no_byte c b.
Proof. unfold no_byte. apply forallb_app. Qed.

Lemma cstr_text l : no_byte NUL l = true -> cstr l = l.
Proof.
  induction l as [|x l IH]; simpl; intros H; [reflexivity|].
  apply andb_true_iff in H as [Hx Hl].
  apply negb_true_iff in Hx. rewrite Hx, IH by assumption. reflexivity.
Qed.

(** ** The parent stream: what the line reader does *)

Lemma same_static_refl p : same_static p p.
Proof. vm_compute. repeat split. Qed.

Lemma same_static_trans p q r :
  same_static p q -> same_static q r -> same_static p r.
Proof. unfold same_static; intuition congruence. Qed.

Lemma unread_rest p :
  wf p -> Src.unread p ++ concat (Src.pending p) = rest p.
Proof.
  unfold wf, rest, Src.unread, Src.content; intros H.
  rewrite skipn_app.
  replace (Src.pos p - length (Src.buf p))%nat with 0%nat by lia.
  reflexivity.
Qed.

Lemma skipn_line (line u : bytes) :
  skipn (length line + 1) (line ++ LF :: u) = u.
Proof.
  induction line as [|x line IH]; simpl; [reflexivity|exact IH].
Qed.

Lemma next_line_found p line s' :
  Src.i_stream_next_line p = Some (line, s') -> line_read p (Some line) s'.
Proof.
  unfold Src.i_stream_next_line.
  destruct (split_at LF (Src.unread p)) as [[l u]|] eqn:Hs; [|discriminate].
  intros H; injection H as <- <-.
  destruct (split_at_sound _ _ _ _ Hs) as [Hu _].
  assert (Hlen : (length (Src.buf p) - Src.pos p = length l + 1 + length u)%nat).
  { unfold Src.unread in Hu. rewrite <- length_skipn, Hu, length_app.
    simpl. lia. }
  unfold line_read; simpl.
  split; [reflexivity|]. split; [repeat split|].
  split; [exists []; reflexivity|]. split; [lia|].
  split; [reflexivity|]. split; [unfold wf; simpl; lia|].
  intros Hwf. rewrite <- (unread_rest p Hwf).
  rewrite (split_at_app_some _ _ _ _ _ Hs). f_equal. f_equal.
  unfold rest; simpl.
  replace (Src.pos p + length l + 1)%nat with ((length l + 1) + Src.pos p)%nat
    by lia.
  rewrite <- skipn_skipn.
  change (skipn (Src.pos p) (Src.content (Src.set_pos p _))) with (rest p).
  rewrite <- (unread_rest p Hwf), Hu, <- app_assoc. simpl.
  symmetry. apply (skipn_line l (u ++ concat (Src.pending p))).
Qed.

Lemma read_next_line_loop_spec n : forall p res p',
  n = length (Src.pending p) ->
  Src.read_next_line_loop n p = (res, p') ->
  line_read p res p'.
Proof.
  induction n as [|n IH]; intros p res p' Hn Hrun.
  - (* no chunk is pending *)
    simpl in Hrun.
    destruct (Src.i_stream_next_line p) as [[line s']|] eqn:Hnl.
    { injection Hrun as <- <-. apply next_line_found; assumption. }
    unfold Src.i_stream_read in Hrun.
    destruct (Src.pending p) as [|c cs] eqn:Hp; [|discriminate].
    simpl in Hrun. injection Hrun as <- <-.
    unfold line_read; simpl. unfold Src.content; simpl. rewrite Hp.
    split; [reflexivity|]. split; [repeat split|].
    split; [exists []; reflexivity|]. split; [lia|].
    split; [reflexivity|]. left. repeat split.
    intros Hwf. rewrite <- (unread_rest p Hwf), Hp. simpl.
    rewrite app_nil_r. unfold Src.i_stream_next_line in Hnl.
    destruct (split_at LF (Src.unread p)) as [[l u]|]; [discriminate|reflexivity].
  - simpl in Hrun.
    destruct (Src.i_stream_next_line p) as [[line s']|] eqn:Hnl.
    { injection Hrun as <- <-. apply next_line_found; assumption. }
    unfold Src.i_stream_read in Hrun.
    destruct (Src.pending p) as [|c cs] eqn:Hp; [discriminate|].
    destruct (Z.of_nat (length c) <=? 0) eqn:Hc.
    + (* the read brings nothing *)
      injection Hrun as <- <-.
      assert (c = []).
      { apply Z.leb_le in Hc. destruct c; [reflexivity|]. simpl length in Hc. lia. }
      subst c. unfold line_read; simpl. unfold Src.content; simpl.
      rewrite Hp, app_nil_r. simpl.
      split; [reflexivity|]. split; [repeat split|].
      split; [exists [[]]; reflexivity|]. split; [lia|].
      split; [reflexivity|]. right. split; [reflexivity|].
      exists []; reflexivity.
    + (* the read brings [c]; go on *)
      apply IH in Hrun; [|simpl in *; congruence].
      set (p1 := Src.mk (Src.buf p ++ c) cs (Src.fail_errno p) (Src.st_size p)
                        (Src.blocking p) (Src.readable_fd p)
                        (Src.max_buffer_size p) (Src.pos p) false 0) in *.
      assert (Hcont : Src.content p1 = Src.content p).
      { unfold Src.content; simpl. rewrite Hp. simpl.
        rewrite app_assoc. reflexivity. }
      assert (Hrest : rest p1 = rest p) by (unfold rest; rewrite Hcont; reflexivity).
      assert (Hwf1 : wf p -> wf p1).
      { unfold wf; simpl. rewrite length_app. lia. }
      destruct Hrun as (H1 & H2 & [pre H3] & H4 & H5).
      unfold line_read.
      split; [congruence|].
      split; [apply (same_static_trans p p1 p'); [repeat split|assumption]|].
      split; [exists (c :: pre); simpl in H3; rewrite Hp, H3; reflexivity|].
      split; [simpl in H4; rewrite length_app in H4; lia|].
      destruct res as [line|].
      * destruct H5 as (H5 & H6 & H7). rewrite Hrest in H7. simpl in H5.
        split; [assumption|]. split; [assumption|]. auto.
      * destruct H5 as (H5 & H6). split; [exact H5|].
        rewrite Hrest in H6. simpl in H6.
        destruct H6 as [(E1 & E2 & E3 & E4)|(E1 & [pre' E2])].
        -- left. split; [assumption|]. split; [assumption|].
           split; [assumption|]. auto.
        -- right. split; [assumption|].
           exists (c :: pre'). rewrite Hp, E2. reflexivity.
Qed.

Lemma i_stream_read_next_line_spec p res p' :
  Src.i_stream_read_next_line p = (res, p') -> line_read p res p'.
Proof. apply read_next_line_loop_spec. reflexivity. Qed.

(** ** The header loop *)

Lemma suffix_shorter {A} (pre l l' : list A) :
  l = pre ++ l' -> (length l' <= length l)%nat.
Proof. intros ->. rewrite length_app. lia. Qed.

Lemma well_behaved_suffix p p' :
  well_behaved p ->
  Src.blocking p' = Src.blocking p ->
  (exists pre, Src.pending p = pre ++ Src.pending p') ->
  well_behaved p'.
Proof.
  unfold well_behaved. intros Hw Hb [pre Hp] Hbl Hin.
  apply Hw; [congruence|]. rewrite Hp. apply in_or_app. right. assumption.
Qed.

Lemma rest_length p : length (rest p) = (length (Src.content p) - Src.pos p)%nat.
Proof. unfold rest. apply length_skipn. Qed.

(** The header loop on a well-behaved source, against the reading of the
    content by [parses]: either the loop ends as the header does, or the
    source has nothing yet and the loop answers 0, having handed over the
    pairs read so far. *)
Lemma header_loop_spec {C} (cb : metawrap_callback_t C) R ctx ctx' e :
  parses cb R ctx ctx' e ->
  forall fuel (m : metawrap_istream C),
    callback m = cb -> context m = ctx -> rest (parent m) = R ->
    wf (parent m) -> well_behaved (parent m) ->
    (length R < fuel)%nat ->
    exists p',
      Src.content p' = Src.content (parent m) /\
      same_static (parent m) p' /\
      (exists pre, Src.pending (parent m) = pre ++ Src.pending p') /\
      wf p' /\
      ((match e with
        | HComplete B =>
            header_loop fuel m = Ret (1, set_context (set_parent m p') ctx') /\
            rest p' = B
        | HFormat r =>
            header_loop fuel m =
            Ret (-1, set_stream_errno (set_context (set_parent m p') ctx') EINVAL)
            /\ rest p' = r
        | HTruncated =>
            header_loop fuel m =
            Ret (-1, set_eof (set_stream_errno (set_context (set_parent m p') ctx')
                                               (Src.fail_errno (parent m))) true)
            /\ Src.pending p' = [] /\ split_at LF (rest p') = None
        end)
       \/
       (exists ctx1,
           header_loop fuel m = Ret (0, set_context (set_parent m p') ctx1) /\
           parses cb (rest p') ctx1 ctx' e /\
           (length (Src.pending p') < length (Src.pending (parent m)))%nat /\
           Src.blocking p' = false)).
Proof.
  intros Hparse fuel. revert R ctx Hparse.
  induction fuel as [|fuel IH];
    intros R ctx Hparse m Hcb Hctx HR Hwf Hwb Hfuel; [lia|].
  simpl header_loop.
  destruct (Src.i_stream_read_next_line (parent m)) as [res p] eqn:Hrd.
  pose proof (i_stream_read_next_line_spec _ _ _ Hrd)
    as (Hcont & Hstat & Hsuf & Hbuf & Hres).
  assert (Hwb' : well_behaved p).
  { apply (well_behaved_suffix (parent m)); [assumption| apply Hstat |assumption]. }
  destruct res as [line|].
  - (* a line was read *)
    destruct Hres as (Hpos & Hwf' & Hsplit).
    specialize (Hsplit Hwf). rewrite HR in Hsplit.
    destruct (split_at_sound _ _ _ _ Hsplit) as [HRl _].
    inversion Hparse as [R0 c0 Hs | R0 c0 l0 r0 Hs Hb | R0 c0 l0 r0 Hs Hb Hc
                        | R0 c0 l0 r0 key value c1 e0 Hs Hb Hc Hsub];
      subst; rewrite Hsplit in Hs; try discriminate;
      injection Hs as <- <-; rewrite Hb.
    + exists p. repeat (split; [assumption|]). left. split; reflexivity.
    + rewrite Hc. exists p. repeat (split; [assumption|]).
      left. split; reflexivity.
    + rewrite Hc.
      destruct (IH _ _ Hsub
                  (set_context (set_parent m p)
                               (callback m key value (context m))))
        as (p' & Hcont' & Hstat' & [pre' Hsuf'] & Hwf'' & Hend);
        try reflexivity; try assumption.
      { rewrite HRl, length_app in Hfuel. simpl in Hfuel. simpl. lia. }
      simpl in Hcont', Hstat', Hsuf', Hend.
      destruct Hsuf as [pre Hsuf].
      exists p'. split; [congruence|].
      split; [apply (same_static_trans _ p); assumption|].
      split; [exists (pre ++ pre'); rewrite Hsuf, Hsuf', app_assoc; reflexivity|].
      split; [assumption|].
      destruct Hend as [Hend | (ctx1 & E1 & E2 & E3 & E4)].
      * left. destruct e as [B|r'|]; try exact Hend.
        destruct Hstat as (Hfe & _). rewrite <- Hfe. exact Hend.
      * right. exists ctx1. split; [exact E1|]. split; [exact E2|].
        split; [|exact E4].
        rewrite Hsuf, length_app. lia.
  - (* no line *)
    destruct Hres as (Hpos & [(Heof & Hpend & Herr & Hnone) | (Heof & [pre Hblk])]).
    + (* the source is at its end *)
      rewrite Heof. specialize (Hnone Hwf). rewrite HR in Hnone.
      inversion Hparse as [R0 c0 Hs | R0 c0 l0 r0 Hs Hb | R0 c0 l0 r0 Hs Hb Hc
                          | R0 c0 l0 r0 key value c1 e0 Hs Hb Hc Hsub];
        subst; rewrite Hnone in Hs; try discriminate.
      exists p. repeat (split; [assumption|]).
      split; [unfold wf in *; lia|].
      left. rewrite Herr. split; [reflexivity|]. split; [assumption|].
      unfold rest. rewrite Hcont, Hpos. exact Hnone.
    + (* the source has nothing yet *)
      assert (Hnb : Src.blocking (parent m) = false).
      { destruct (Src.blocking (parent m)) eqn:Hbl; [|reflexivity].
        exfalso. apply (Hwb Hbl). rewrite Hblk.
        apply in_or_app. right. left. reflexivity. }
      destruct Hstat as (Hfe & Hst & Hbl).
      rewrite Heof, Hbl, Hnb.
      exists p. split; [assumption|]. split; [repeat split; assumption|].
      split; [assumption|]. split; [unfold wf in *; lia|].
      right. exists ctx. subst ctx. split; [reflexivity|].
      split; [|split; [|congruence]].
      * replace (rest p) with R; [assumption|].
        subst R. unfold rest. rewrite Hcont, Hpos. reflexivity.
      * rewrite Hblk, length_app. simpl. lia.
Qed.

(** What the header loop leaves alone and how far it moves the parent,
    whatever the content. *)
Lemma header_loop_gen {C} fuel : forall (m : metawrap_istream C) r m',
  header_loop fuel m = Ret (r, m') ->
  v_offset m' = v_offset m /\
  start_offset m' = start_offset m /\
  in_metadata m' = in_metadata m /\
  Src.content (parent m') = Src.content (parent m) /\
  same_static (parent m) (parent m') /\
  (length (Src.buf (parent m)) <= length (Src.buf (parent m')))%nat /\
  (wf (parent m) -> wf (parent m')) /\
  (Src.pos (parent m) <= Src.pos (parent m'))%nat /\
  (r = 0 -> Src.blocking (parent m) = false) /\
  (r = 1 \/ r = 0 \/ r = -1).
Proof.
  induction fuel as [|fuel IH]; intros m r m' Hrun; [discriminate|].
  simpl in Hrun.
  destruct (Src.i_stream_read_next_line (parent m)) as [res p] eqn:Hrd.
  pose proof (i_stream_read_next_line_spec _ _ _ Hrd)
    as (Hcont & Hstat & Hsuf & Hbuf & Hres).
  destruct res as [line|].
  - destruct Hres as (Hpos & Hwf' & _).
    destruct (cstr_empty line).
    + injection Hrun as <- <-. simpl.
      repeat (split; [first [reflexivity | assumption | lia | discriminate | auto]|]).
      auto.
    + destruct (strchr_cut COLON line) as [[key value]|].
      * apply IH in Hrun. simpl in Hrun.
        destruct Hrun as (H1 & H2 & H3 & H4 & H5 & H6 & H7 & H8 & H9 & H10).
        repeat (split; [first [assumption | congruence | lia]|]).
        split; [apply (same_static_trans _ p); assumption|].
        split; [lia|]. split; [auto|]. split; [lia|].
        split; [|assumption].
        intros Hr. destruct Hstat as (_ & _ & Hbl). rewrite <- Hbl. auto.
      * injection Hrun as <- <-. simpl.
        repeat (split; [first [reflexivity | assumption | lia | discriminate | auto]|]).
        auto.
  - destruct Hres as (Hpos & Hcase).
    assert (Hwf' : wf (parent m) -> wf p) by (unfold wf; lia).
    destruct (Src.eof p).
    + injection Hrun as <- <-. simpl.
      repeat (split; [first [reflexivity | assumption | lia | discriminate]|]).
      auto.
    + destruct (Src.blocking p) eqn:Hbl; [discriminate|].
      injection Hrun as <- <-. simpl.
      repeat (split; [first [reflexivity | assumption | lia]|]).
      split; [|auto]. intros _. destruct Hstat as (_ & _ & <-). assumption.
Qed.

(** The header loop stops before its counter does. *)
Lemma header_loop_total {C} fuel : forall (m : metawrap_istream C),
  (length (Src.content (parent m)) - Src.pos (parent m) < fuel)%nat ->
  header_loop fuel m <> OutOfFuel.
Proof.
  induction fuel as [|fuel IH]; intros m Hfuel; [lia|].
  simpl.
  destruct (Src.i_stream_read_next_line (parent m)) as [res p] eqn:Hrd.
  pose proof (i_stream_read_next_line_spec _ _ _ Hrd)
    as (Hcont & Hstat & Hsuf & Hbuf & Hres).
  destruct res as [line|].
  - destruct Hres as (Hpos & Hwf' & _).
    destruct (cstr_empty line); [discriminate|].
    destruct (strchr_cut COLON line) as [[key value]|]; [|discriminate].
    apply IH. simpl. rewrite Hcont.
    assert (length (Src.buf p) <= length (Src.content p))%nat.
    { unfold Src.content. rewrite length_app. lia. }
    unfold wf in Hwf'. rewrite Hcont in *. lia.
  - destruct (Src.eof p); [discriminate|].
    destruct (Src.blocking p); discriminate.
Qed.

(** The only assertion the header loop can trip is the one on the
    parent's blocking mode. *)
Lemma header_loop_abort {C} fuel : forall (m : metawrap_istream C) site,
  header_loop fuel m = Abort site ->
  site = AssertParentNotBlocking /\ Src.blocking (parent m) = true.
Proof.
  induction fuel as [|fuel IH]; intros m site Hrun; [discriminate|].
  simpl in Hrun.
  destruct (Src.i_stream_read_next_line (parent m)) as [res p] eqn:Hrd.
  pose proof (i_stream_read_next_line_spec _ _ _ Hrd)
    as (Hcont & (_ & _ & Hbl) & _).
  destruct res as [line|].
  - destruct (cstr_empty line); [discriminate|].
    destruct (strchr_cut COLON line) as [[key value]|]; [|discriminate].
    apply IH in Hrun. simpl in Hrun. rewrite <- Hbl. assumption.
  - destruct (Src.eof p); [discriminate|].
    destruct (Src.blocking p) eqn:E; [|discriminate].
    injection Hrun as <-. split; congruence.
Qed.

(** ** Passing the payload through *)

Lemma src_read_gen p :
  Src.content (snd (Src.i_stream_read p)) = Src.content p /\
  same_static p (snd (Src.i_stream_read p)) /\
  (length (Src.buf p) <= length (Src.buf (snd (Src.i_stream_read p))))%nat /\
  Src.pos (snd (Src.i_stream_read p)) = Src.pos p.
Proof.
  unfold Src.i_stream_read, Src.content.
  destruct (Src.pending p) as [|c cs]; simpl.
  - repeat split. lia.
  - rewrite <- app_assoc, length_app. repeat split. lia.
Qed.

Lemma copy_loop_gen {C} n : forall (m : metawrap_istream C),
  copy_frame m (snd (copy_loop n m)).
Proof.
  induction n as [|n IH]; intros m; simpl;
    destruct (Src.i_stream_read (parent m)) as [ret p] eqn:Hrd;
    pose proof (src_read_gen (parent m)) as (H1 & H2 & H3 & H4);
    rewrite Hrd in H1, H2, H3, H4; simpl in H1, H2, H3, H4;
    match goal with |- context [if ?b then _ else _] => destruct b end;
    try (unfold copy_frame; simpl; repeat split; solve [assumption | apply H2]).
  specialize (IH (set_window
                    (set_eof (set_stream_errno (set_parent m p)
                                               (Src.stream_errno p))
                             (Src.eof p))
                    (Src.unread p) (skip m) (pos m))).
  unfold copy_frame in *; simpl in IH.
  destruct IH as (I1 & I2 & I3 & I4 & I5 & I6 & I7 & I8 & I9 & I10).
  repeat (split; [first [assumption | congruence | lia]|]).
  split; [apply (same_static_trans _ p); assumption|].
  split; [lia | congruence].
Qed.

Lemma read_copy_gen {C} (m : metawrap_istream C) :
  copy_frame m (snd (i_stream_read_copy_from_parent m)).
Proof.
  unfold i_stream_read_copy_from_parent.
  set (m0 := set_window m (Src.unread (parent m)) 0 (pos m - skip m)).
  destruct (pos m0 <? length (buffer m0))%nat.
  - unfold copy_frame; simpl. repeat split. lia.
  - pose proof (copy_loop_gen (length (Src.pending (parent m0))) m0) as H.
    destruct (copy_loop _ m0) as [ret m1]. simpl in *.
    unfold copy_frame in *; simpl in *. exact H.
Qed.

(** The passthrough read when the caller has skipped all it was shown:
    either the parent is at its end, or the stream shows the next bytes
    of the content. *)
Lemma copy_step {C} (m : metawrap_istream C) :
  wf (parent m) -> pos m = skip m ->
  let r := i_stream_read_copy_from_parent m in
  let m1 := snd r in
  skip m1 = 0%nat /\ pos m1 = length (buffer m1) /\
  ((fst r = -1 /\ rest (parent m) = [] /\ eof m1 = true /\
    stream_errno m1 = Src.fail_errno (parent m))
   \/
   (0 <= fst r /\
    buffer m1 ++ concat (Src.pending (parent m1)) = rest (parent m) /\
    (Src.pos (parent m) + length (buffer m1)
     = length (Src.buf (parent m1)))%nat /\
    (length (Src.pending (parent m1))
     < length (Src.pending (parent m))
       + (if (Src.pos (parent m) <? length (Src.buf (parent m)))%nat
          then 1 else 0))%nat)).
Proof.
  destruct m as [p vo se eo bl sk rfd mbs bufr skp ps aso sst cb ctx so im].
  destruct p as [buf pend fe st pbl pfd pmb ppos peof perr].
  unfold wf, rest, Src.content; cbn [parent pos skip Src.pos Src.buf Src.pending].
  intros Hwf ->.
  rewrite skipn_app.
  replace (ppos - length buf)%nat with 0%nat by lia. cbn [skipn].
  unfold i_stream_read_copy_from_parent.
  pose proof (length_skipn ppos buf) as Hlen.
  mw_simpl. rewrite Nat.sub_diag.
  destruct (skipn ppos buf) as [|x u] eqn:Hu.
  - (* nothing new is there: read the parent *)
    assert (Hq : ppos = length buf) by (simpl in Hlen; lia).
    replace (ppos <? length buf)%nat with false
      by (symmetry; apply Nat.ltb_ge; lia).
    destruct pend as [|c cs].
    + mw_simpl. rewrite Hu. simpl.
      split; [reflexivity|]. split; [reflexivity|]. left. repeat split.
    + assert (Hc : skipn ppos (buf ++ c) = c).
      { rewrite skipn_app, Hu, Hq, Nat.sub_diag. reflexivity. }
      destruct c as [|y c].
      * mw_simpl. rewrite Hc. simpl.
        split; [reflexivity|]. split; [reflexivity|]. right.
        repeat split; rewrite ?length_app; simpl; lia.
      * mw_simpl. rewrite Hc. simpl.
        split; [reflexivity|]. split; [reflexivity|]. right.
        repeat split; rewrite ?length_app; simpl; lia.
  - mw_simpl.
    replace (ppos <? length buf)%nat with true
      by (symmetry; apply Nat.ltb_lt; lia).
    split; [reflexivity|]. split; [reflexivity|]. right.
    repeat split; try lia.
Qed.

(** ** Reading to the end *)

Lemma u64_small z : 0 <= z < 2 ^ 64 -> u64 z = z.
Proof. apply Z.mod_small. Qed.

Lemma buf_le_content p : (length (Src.buf p) <= length (Src.content p))%nat.
Proof. unfold Src.content. rewrite length_app. lia. Qed.

Lemma passing_read {C} (m : metawrap_istream C) q :
  passing m q ->
  exists ret m1,
    i_stream_read m = Ret (ret, m1) /\
    context m1 = context m /\ callback m1 = callback m /\
    start_offset m1 = start_offset m /\ in_metadata m1 = false /\
    v_offset m1 = v_offset m /\
    Src.content (parent m1) = Src.content (parent m) /\
    same_static (parent m) (parent m1) /\
    skip m1 = 0%nat /\ pos m1 = length (buffer m1) /\
    ((ret = -1 /\ skipn q (Src.content (parent m)) = [] /\ eof m1 = true /\
      stream_errno m1 = Src.fail_errno (parent m))
     \/
     (0 <= ret /\
      buffer m1 ++ concat (Src.pending (parent m1))
      = skipn q (Src.content (parent m)) /\
      (q + length (buffer m1) = length (Src.buf (parent m1)))%nat /\
      (length (Src.pending (parent m1))
       < length (Src.pending (parent m))
         + (if (q <? length (Src.buf (parent m)))%nat then 1 else 0))%nat)).
Proof.
  intros (Him & Hps & Hq & Hle & Hsz).
  pose proof (buf_le_content (parent m)) as Hbc. unfold sized in Hsz.
  set (ms := set_parent (set_stream_errno (set_eof m false) 0)
                        (Src.set_pos (parent m) q)).
  assert (Hrd : i_stream_metawrap_read (set_stream_errno (set_eof m false) 0)
                = Ret (i_stream_read_copy_from_parent ms)).
  { unfold i_stream_metawrap_read. cbn [set_parent set_stream_errno set_eof
      in_metadata start_offset v_offset parent]. rewrite Him, Hq.
    rewrite u64_small by lia. unfold Src.i_stream_seek. rewrite Nat2Z.id.
    reflexivity. }
  unfold i_stream_read. rewrite Hrd.
  pose proof (read_copy_gen ms) as (F1 & F2 & F3 & F4 & F5 & F6 & F7 & F8 & F9 & F10).
  pose proof (copy_step ms) as Hstep.
  destruct (i_stream_read_copy_from_parent ms) as [ret m1].
  cbn [fst snd] in *.
  destruct Hstep as (S1 & S2 & S3); [unfold wf; simpl; lia | exact Hps |].
  assert (Hrest : rest (parent ms) = skipn q (Src.content (parent m)))
    by reflexivity.
  rewrite Hrest in S3.
  cbn [bind].
  exists ret.
  match goal with
  | |- exists m1', (if ?b then Ret (_, ?a) else Ret (_, ?c)) = _ /\ _ =>
      exists (if b then a else c)
  end.
  split; [destruct (_ && _); reflexivity|].
  assert (Hsame : forall (b : bool),
             let m' := if b then set_eof m1 true else m1 in
             context m' = context m1 /\ callback m' = callback m1 /\
             start_offset m' = start_offset m1 /\
             in_metadata m' = in_metadata m1 /\ v_offset m' = v_offset m1 /\
             parent m' = parent m1 /\ skip m' = skip m1 /\ pos m' = pos m1 /\
             buffer m' = buffer m1 /\ stream_errno m' = stream_errno m1 /\
             (eof m1 = true -> eof m' = true))
    by (intros []; simpl; repeat split; auto).
  destruct (Hsame ((ret =? -1) && negb (stream_errno m1 =? 0)))
    as (E1 & E2 & E3 & E4 & E5 & E6 & E7 & E8 & E9 & E10 & E11).
  rewrite E1, E2, E3, E4, E5, E6, E7, E8, E9, E10.
  simpl in F1, F2, F3, F4, F5, F7, F8, F9, F10.
  repeat (split; [first [assumption | congruence]|]).
  destruct S3 as [(T1 & T2 & T3 & T4) | (T1 & T2 & T3 & T4)].
  - left. repeat split; auto.
  - right. repeat split; auto.
Qed.

Lemma get_data_all {C} (m : metawrap_istream C) :
  skip m = 0%nat -> pos m = length (buffer m) -> i_stream_get_data m = buffer m.
Proof.
  unfold i_stream_get_data. intros -> ->. simpl. apply firstn_all.
Qed.

(** A stream past its header delivers the content from its offset on. *)
Lemma drain {C} fuel : forall (m : metawrap_istream C) q acc,
  passing m q ->
  (length (Src.pending (parent m))
   + (if (q <? length (Src.buf (parent m)))%nat then 1 else 0) < fuel)%nat ->
  exists m',
    read_all fuel m acc
    = Ret (acc ++ skipn q (Src.content (parent m)), (-1, m')) /\
    ended m m'.
Proof.
  induction fuel as [|fuel IH]; intros m q acc Hpass Hfuel; [lia|].
  destruct (passing_read m q Hpass)
    as (ret & m1 & Hrd & G1 & G2 & G3 & G4 & G5 & G6 & G7 & G8 & G9 & Hcase).
  destruct Hpass as (Him & Hps & Hq & Hle & Hsz).
  simpl read_all. rewrite Hrd. cbn [bind].
  destruct Hcase as [(T1 & T2 & T3 & T4) | (T1 & T2 & T3 & T4)].
  - subst ret. simpl. exists m1. rewrite T2, app_nil_r. split; [reflexivity|].
    unfold ended. repeat split; assumption.
  - replace (ret <? 0) with false by (symmetry; apply Z.ltb_ge; assumption).
    rewrite (get_data_all m1 G8 G9).
    set (m2 := i_stream_skip m1 (length (buffer m1))).
    assert (Hpass2 : passing m2 (length (Src.buf (parent m1)))).
    { unfold passing, m2, i_stream_skip. simpl. rewrite G8, G9, Nat.sub_0_r, Nat.min_id.
      repeat split; try assumption; try lia.
      unfold sized in *. rewrite G6. assumption. }
    destruct (IH m2 _ (acc ++ buffer m1) Hpass2) as (m' & Hrun & Hend).
    { simpl. rewrite Nat.ltb_irrefl. lia. }
    exists m'. split.
    + rewrite Hrun. f_equal. f_equal. rewrite <- app_assoc. f_equal.
      rewrite <- T2. f_equal. simpl. unfold Src.content.
      rewrite skipn_app, skipn_all, Nat.sub_diag. reflexivity.
    + unfold ended in *. simpl in Hend.
      destruct Hend as (H1 & H2 & H3 & H4 & H5 & H6).
      destruct G7 as (Hfe & _).
      repeat split; congruence.
Qed.

Lemma set_pos_same p : Src.set_pos p (Src.pos p) = p.
Proof. destruct p; reflexivity. Qed.

Lemma pos_of_rest p B :
  wf p -> rest p = B ->
  Src.pos p = (length (Src.content p) - length B)%nat.
Proof.
  intros Hwf <-. rewrite rest_length.
  pose proof (buf_le_content p). unfold wf in Hwf. lia.
Qed.

(** One read of a stream in its header, in terms of the header loop. *)
Lemma heading_read {C} (m : metawrap_istream C) :
  heading m ->
  i_stream_read m =
  '(ret, m1) <-
    ('(ret, mA) <- header_loop (header_fuel (parent m))
                     (set_stream_errno (set_eof m false) 0) ;;
     if negb (v_offset mA =? 0) then Abort AssertVOffsetZero
     else
       let mB := set_start_offset mA (Src.v_offset (parent mA)) in
       if ret <=? 0 then Ret (ret, mB)
       else
         Ret (i_stream_read_copy_from_parent
                (set_in_metadata
                   (set_abs_start_offset mB
                      (u64 (abs_start_offset mB + start_offset mB)))
                   false))) ;;
  if (ret =? -1) && negb (stream_errno m1 =? 0)
  then Ret (ret, set_eof m1 true)
  else Ret (ret, m1).
Proof.
  intros (Him & Hvo & Hsk & Hps & Hso & Hwf & Hsz & Hwb).
  unfold i_stream_read, i_stream_metawrap_read, metadata_header_read.
  cbn [set_parent set_stream_errno set_eof in_metadata start_offset v_offset
       parent].
  rewrite Him, Hso, Hvo, Z.add_0_r.
  pose proof (buf_le_content (parent m)). unfold sized, wf in *.
  rewrite u64_small by lia. unfold Src.i_stream_seek.
  rewrite Nat2Z.id, set_pos_same.
  replace (mkm (parent m) 0 0 false (blocking m) (seekable m) (readable_fd m)
             (max_buffer_size m) (buffer m) (skip m) (pos m)
             (abs_start_offset m) (statbuf_st_size m) (callback m)
             (context m) (Z.of_nat (Src.pos (parent m))) true)
    with (set_stream_errno (set_eof m false) 0); [reflexivity|].
  unfold set_stream_errno, set_eof; simpl. rewrite Him, Hso, Hvo. reflexivity.
Qed.

Lemma if_ret {A B} (b : bool) (r : A) (x y : B) :
  (if b then Ret (r, x) else Ret (r, y)) = Ret (r, if b then x else y).
Proof. destruct b; reflexivity. Qed.

(** The end mark the library read sets after a failure changes nothing
    else. *)
Lemma mark_eof_fields {C} (b : bool) (m1 : metawrap_istream C) :
  let m' := if b then set_eof m1 true else m1 in
  context m' = context m1 /\ callback m' = callback m1 /\
  start_offset m' = start_offset m1 /\
  in_metadata m' = in_metadata m1 /\ v_offset m' = v_offset m1 /\
  parent m' = parent m1 /\ skip m' = skip m1 /\ pos m' = pos m1 /\
  buffer m' = buffer m1 /\ stream_errno m' = stream_errno m1 /\
  (eof m1 = true -> eof m' = true).
Proof. destruct b; simpl; repeat split; auto. Qed.

Lemma read_outcome_transfer {C} (m m3 : metawrap_istream C) ctx' e acc r :
  Src.content (parent m3) = Src.content (parent m) ->
  Src.fail_errno (parent m3) = Src.fail_errno (parent m) ->
  read_outcome m3 ctx' e acc r -> read_outcome m ctx' e acc r.
Proof.
  unfold read_outcome. intros -> ->. auto.
Qed.

Lemma read_all_spec {C} fuel : forall (m : metawrap_istream C) acc ctx' e,
  heading m ->
  parses (callback m) (rest (parent m)) (context m) ctx' e ->
  (length (Src.pending (parent m)) + 1 < fuel)%nat ->
  read_outcome m ctx' e acc (read_all fuel m acc).
Proof.
  induction fuel as [|fuel IH]; intros m acc ctx' e Hhead Hparse Hfuel; [lia|].
  simpl read_all. rewrite (heading_read m Hhead).
  destruct Hhead as (Him & Hvo & Hsk & Hps & Hso & Hwf & Hsz & Hwb).
  set (m0 := set_stream_errno (set_eof m false) 0).
  destruct (header_loop_spec _ _ _ _ _ Hparse (header_fuel (parent m)) m0)
    as (p' & Hcont & Hstat & Hsuf & Hwf' & Hend);
    try reflexivity; try assumption.
  { unfold header_fuel. rewrite rest_length. lia. }
  cbn [parent m0 set_stream_errno set_eof] in Hcont, Hstat, Hsuf, Hend.
  pose proof Hstat as (Hfe & Hst & Hbl).
  assert (Hwb' : well_behaved p')
    by (apply (well_behaved_suffix (parent m)); assumption).
  assert (Hsz' : sized p') by (unfold sized; rewrite Hcont; assumption).
  assert (Hshort' : (length (Src.pending p') <= length (Src.pending (parent m)))%nat)
    by (destruct Hsuf as [pre Hsuf]; apply (suffix_shorter pre); assumption).
  destruct Hend as [Hend | (ctx1 & Hloop & Hparse1 & Hshort & Hnb)].
  - destruct e as [B | after | ].
    + (* the header is complete *)
      destruct Hend as (Hloop & HB).
      rewrite Hloop. cbn [bind]. simpl v_offset. rewrite Hvo. cbn [Z.eqb negb].
      cbv zeta. cbn [Z.leb Z.compare].
      set (mC := set_in_metadata _ false).
      pose proof (read_copy_gen mC) as (F1 & F2 & F3 & F4 & F5 & F6 & F7 & F8 & F9 & F10).
      pose proof (copy_step mC) as Hstep.
      destruct (i_stream_read_copy_from_parent mC) as [ret m1].
      cbn [fst snd] in *.
      destruct Hstep as (S1 & S2 & S3); [exact Hwf' | simpl; congruence |].
      unfold mC, m0 in F1, F2, F3, F4, F5, F7, F8, F10, S3.
      simpl in F1, F2, F3, F4, F5, F7, F8, F10, S3. clear mC F6 F9.
      cbn [bind]. rewrite if_ret. cbn [bind].
      destruct (mark_eof_fields ((ret =? -1) && negb (stream_errno m1 =? 0)) m1)
        as (E1 & E2 & E3 & E4 & E5 & E6 & E7 & E8 & E9 & E10 & E11).
      set (m1' := if (ret =? -1) && negb (stream_errno m1 =? 0)
                  then set_eof m1 true else m1) in *.
      pose proof (pos_of_rest p' B Hwf' HB) as Hpos'.
      destruct S3 as [(T1 & T2 & T3 & T4) | (T1 & T2 & T3 & T4)].
      * replace (ret <? 0) with true by (rewrite T1; reflexivity).
        exists m1'. split; [congruence|].
        rewrite <- HB, T2, app_nil_r. split; [rewrite T1; reflexivity|].
        split; [congruence|].
        split; [rewrite E3, F2; unfold Src.v_offset; rewrite Hpos', <- HB, T2, Hcont; reflexivity|].
        split; [auto | congruence].
      * replace (ret <? 0) with false by (symmetry; apply Z.ltb_ge; assumption).
        rewrite (get_data_all m1') by congruence.
        set (m2 := i_stream_skip m1' (length (buffer m1'))).
        assert (Hpass2 : passing m2 (length (Src.buf (parent m1)))).
        { unfold passing, m2, i_stream_skip. simpl.
          rewrite E7, E8, E9, E5, E4, E3, E6, S1, S2, Nat.sub_0_r, Nat.min_id.
          rewrite F1, F2, F3, Hvo. unfold Src.v_offset.
          repeat split; try lia.
          unfold sized in *. rewrite F7. assumption. }
        destruct (drain fuel m2 _ (acc ++ buffer m1') Hpass2) as (m' & Hrun & Hfin).
        { unfold m2, i_stream_skip. simpl. rewrite E6, Nat.ltb_irrefl.
          destruct (Src.pos p' <? length (Src.buf p'))%nat; lia. }
        rewrite Hrun. exists m'.
        destruct Hfin as (H1 & H2 & H3 & H4 & H5 & H6). simpl in H1, H2, H4, H6.
        split; [congruence|].
        split.
        { f_equal. f_equal. rewrite <- app_assoc. f_equal.
          rewrite <- HB, <- T2, E9. f_equal. simpl. rewrite E6.
          unfold Src.content.
          rewrite skipn_app, skipn_all, Nat.sub_diag. reflexivity. }
        split; [assumption|].
        split; [rewrite H4, E3, F2; unfold Src.v_offset; rewrite Hpos', Hcont; reflexivity|].
        split; [assumption|].
        rewrite H6, E6. destruct F8 as (-> & _). assumption.
    + (* a line without colon *)
      destruct Hend as (Hloop & HB).
      rewrite Hloop. cbn [bind]. simpl v_offset. rewrite Hvo. cbn [Z.eqb negb].
      cbv zeta. cbn [Z.leb Z.compare bind]. rewrite if_ret. cbn [bind].
      cbn [Z.ltb Z.compare].
      eexists. split; [|split; [reflexivity|]];
        match goal with
        | |- context [if ?b then set_eof ?x true else ?x] =>
            destruct (mark_eof_fields b x)
              as (E1 & E2 & E3 & E4 & E5 & E6 & E7 & E8 & E9 & E10 & E11);
            cbv zeta in *
        end.
      * rewrite E1. reflexivity.
      * rewrite E4, E3, E5, E10. simpl.
        split; [assumption|].
        split; [unfold Src.v_offset; rewrite (pos_of_rest p' after Hwf' HB), Hcont; reflexivity|].
        split; [assumption | reflexivity].
    + (* the content ends within the header *)
      destruct Hend as (Hloop & Hpend & Hnolf).
      rewrite Hloop. cbn [bind]. simpl v_offset. rewrite Hvo. cbn [Z.eqb negb].
      cbv zeta. cbn [Z.leb Z.compare bind]. rewrite if_ret. cbn [bind].
      cbn [Z.ltb Z.compare].
      eexists. split; [|split; [reflexivity|]];
        match goal with
        | |- context [if ?b then set_eof ?x true else ?x] =>
            destruct (mark_eof_fields b x)
              as (E1 & E2 & E3 & E4 & E5 & E6 & E7 & E8 & E9 & E10 & E11);
            cbv zeta in *
        end.
      * rewrite E1. reflexivity.
      * unfold stuck, heading. rewrite E4, E5, E10, E3, E6, E7, E8. simpl.
        split; [assumption|]. split; [assumption|].
        split; [apply E11; reflexivity|]. split; [reflexivity|].
        split; [|assumption].
        repeat split; assumption.
  - (* the source has nothing yet: the caller reads again *)
    rewrite Hloop. cbn [bind]. simpl v_offset. rewrite Hvo. cbn [Z.eqb negb].
    cbv zeta. cbn [Z.leb Z.compare bind]. simpl andb. cbv iota.
    cbn [bind Z.ltb Z.compare].
    unfold i_stream_get_data at 1 2. simpl skip. simpl pos. simpl buffer.
    rewrite Hsk, Hps. cbn [firstn skipn length]. rewrite app_nil_r.
    match goal with |- read_outcome _ _ _ _ (read_all _ ?m3 _) =>
      apply (read_outcome_transfer m m3); [exact Hcont | exact Hfe |];
      apply IH
    end.
    + unfold heading, i_stream_skip. simpl. rewrite Him, Hvo, Hsk, Hps. simpl.
      repeat split; assumption.
    + simpl. exact Hparse1.
    + simpl. lia.
Qed.

(** ** Reading the wire format *)

Lemma no_byte_cstr c l : no_byte c l = true -> no_byte c (cstr l) = true.
Proof.
  induction l as [|x l IH]; simpl; intros H; [reflexivity|].
  apply andb_true_iff in H as [Hx Hl].
  destruct (Ascii.eqb x NUL); simpl; [reflexivity|].
  rewrite Hx, IH by assumption. reflexivity.
Qed.

Lemma header_line_split kv tail :
  header_line kv ++ tail = (fst kv ++ COLON :: snd kv) ++ LF :: tail.
Proof.
  unfold header_line. rewrite <- !app_assoc. simpl.
  rewrite <- app_assoc. reflexivity.
Qed.

Lemma valid_entry_line kv :
  valid_entry kv = true ->
  no_byte LF (fst kv ++ COLON :: snd kv) = true /\
  cstr_empty (fst kv ++ COLON :: snd kv) = false /\
  strchr_cut COLON (fst kv ++ COLON :: snd kv) = Some (fst kv, snd kv).
Proof.
  destruct kv as [k v]. unfold valid_entry. simpl.
  rewrite !andb_true_iff. intros ((((H1 & H2) & H3) & H4) & H5).
  split; [|split].
  - rewrite no_byte_app. simpl. rewrite H1, H4. reflexivity.
  - destruct k as [|x k]; simpl; [reflexivity|].
    simpl in H2. apply andb_true_iff in H2 as [Hx _].
    apply negb_true_iff in Hx. exact Hx.
  - unfold strchr_cut. rewrite cstr_text.
    + apply split_at_here. assumption.
    + rewrite no_byte_app. simpl. rewrite H2, H5. reflexivity.
Qed.

(** The lines of a valid header are read as its pairs, in order. *)
Lemma parses_lines {C} (cb : metawrap_callback_t C) h : forall tail ctx ctx' e,
  valid_header h = true ->
  parses cb tail (feed cb h ctx) ctx' e ->
  parses cb (header_lines h ++ tail) ctx ctx' e.
Proof.
  induction h as [|kv h IH]; intros tail ctx ctx' e Hv Hp; [exact Hp|].
  simpl in Hv. apply andb_true_iff in Hv as [Hkv Hv].
  destruct (valid_entry_line kv Hkv) as (Hlf & Hne & Hcut).
  unfold header_lines. simpl flat_map. rewrite <- app_assoc, header_line_split.
  eapply parses_pair.
  - apply split_at_here. exact Hlf.
  - exact Hne.
  - exact Hcut.
  - apply IH; assumption.
Qed.

Lemma parses_complete {C} (cb : metawrap_callback_t C) h B ctx :
  valid_header h = true ->
  parses cb (header_block h ++ B) ctx (feed cb h ctx) (HComplete B).
Proof.
  intros Hv. unfold header_block. rewrite <- app_assoc.
  apply parses_lines; [assumption|].
  apply (parses_blank cb _ _ [] B); reflexivity.
Qed.

Lemma parses_format {C} (cb : metawrap_callback_t C) h bad after ctx :
  valid_header h = true ->
  no_byte LF bad = true -> no_byte COLON bad = true ->
  cstr_empty bad = false ->
  parses cb (header_lines h ++ bad ++ LF :: after) ctx (feed cb h ctx)
         (HFormat after).
Proof.
  intros Hv Hlf Hcolon Hne.
  apply parses_lines; [assumption|].
  apply (parses_bad cb _ _ bad after).
  - apply split_at_here. assumption.
  - assumption.
  - unfold strchr_cut. apply split_at_absent, no_byte_cstr. assumption.
Qed.

Lemma parses_cut_short {C} (cb : metawrap_callback_t C) h partial ctx :
  valid_header h = true ->
  no_byte LF partial = true ->
  parses cb (header_lines h ++ partial) ctx (feed cb h ctx) HTruncated.
Proof.
  intros Hv Hlf.
  apply parses_lines; [assumption|].
  apply parses_truncated. apply split_at_absent. assumption.
Qed.

(** Every content reads one way or another. *)
Lemma parses_total {C} (cb : metawrap_callback_t C) n : forall R ctx,
  (length R <= n)%nat -> exists ctx' e, parses cb R ctx ctx' e.
Proof.
  induction n as [|n IH]; intros R ctx Hn.
  - destruct R; [|simpl in Hn; lia].
    exists ctx, HTruncated. apply parses_truncated. reflexivity.
  - destruct (split_at LF R) as [[line r]|] eqn:Hs.
    + destruct (cstr_empty line) eqn:Hb.
      * exists ctx, (HComplete r). eapply parses_blank; eassumption.
      * destruct (strchr_cut COLON line) as [[key value]|] eqn:Hc.
        -- destruct (IH r (cb key value ctx)) as (ctx' & e & Hp).
           { destruct (split_at_sound _ _ _ _ Hs) as [-> _].
             rewrite length_app in Hn. simpl in Hn. lia. }
           exists ctx', e. eapply parses_pair; eassumption.
        -- exists ctx, (HFormat r). eapply parses_bad; eassumption.
    + exists ctx, HTruncated. apply parses_truncated. assumption.
Qed.

(** ** A stream just created *)

Lemma create_heading {C} src (cb : metawrap_callback_t C) ctx :
  fresh src -> heading (i_stream_create_metawrap src cb ctx).
Proof.
  intros (Hpos & Hsz & Hwb). unfold heading, wf. simpl. rewrite Hpos.
  repeat split; try assumption; try reflexivity. lia.
Qed.

Lemma create_rest {C} src (cb : metawrap_callback_t C) ctx :
  fresh src ->
  rest (parent (i_stream_create_metawrap src cb ctx)) = Src.content src.
Proof. intros (Hpos & _). unfold rest. simpl. rewrite Hpos. reflexivity. Qed.

(** Reading a fresh stream to the end, by the way its content reads. *)
Lemma read_created {C} src (cb : metawrap_callback_t C) ctx ctx' e fuel :
  fresh src ->
  parses cb (Src.content src) ctx ctx' e ->
  (length (Src.pending src) + 1 < fuel)%nat ->
  read_outcome (i_stream_create_metawrap src cb ctx) ctx' e []
               (read_all fuel (i_stream_create_metawrap src cb ctx) []).
Proof.
  intros Hfresh Hparse Hfuel.
  apply read_all_spec.
  - apply create_heading. assumption.
  - rewrite create_rest by assumption. exact Hparse.
  - exact Hfuel.
Qed.

(** ** Reading a stream over a well-formed source *)

(** C1: for a source whose content is a valid header block followed by
    payload bytes [B], whatever the number of header lines (none
    included) and however the content arrives, reading the stream end to
    end yields exactly [B], and the last read answers -1 with the stream
    past its header. *)
Theorem C1_payload_unchanged {C} (cb : metawrap_callback_t C) ctx src h B fuel :
  fresh src ->
  Src.content src = header_block h ++ B ->
  valid_header h = true ->
  (length (Src.pending src) + 1 < fuel)%nat ->
  exists m',
    read_all fuel (i_stream_create_metawrap src cb ctx) [] = Ret (B, (-1, m')) /\
    in_metadata m' = false /\ eof m' = true.
Proof.
  intros Hfresh Hcontent Hvalid Hfuel.
  destruct (read_created src cb ctx (feed cb h ctx) (HComplete B) fuel Hfresh)
    as (m' & _ & Hrun & Him & _ & Heof & _); [|assumption|].
  - rewrite Hcontent. apply parses_complete. assumption.
  - exists m'. auto.
Qed.

Lemma C1_payload_unchanged_witness :
  exists m',
    read_all 9
      (i_stream_create_metawrap
         (nb_source (txt "fr")
                    [txt "om:x"; []; LF :: txt "a:b:c" ++ [LF]; [];
                     LF :: txt "BO"; []; txt "DY"] 5)
         record_call []) []
    = Ret (txt "BODY", (-1, m')) /\
    in_metadata m' = false /\ eof m' = true.
Proof.
  apply (C1_payload_unchanged record_call [] _
           [(txt "from", txt "x"); (txt "a", txt "b:c")] (txt "BODY") 9).
  - fresh_source.
  - reflexivity.
  - reflexivity.
  - simpl. lia.
Defined.

(** C2: for a source with a valid header block, the callback is called
    once for each header line, in the order of the lines, with the text
    before the first colon as key and all the text after it as value
    (which may hold colons); the empty line and the payload cause no
    call.  [feed cb h ctx] is the context after exactly these calls. *)
Theorem C2_sink_calls {C} (cb : metawrap_callback_t C) ctx src h B fuel :
  fresh src ->
  Src.content src = header_block h ++ B ->
  valid_header h = true ->
  (length (Src.pending src) + 1 < fuel)%nat ->
  exists m',
    read_all fuel (i_stream_create_metawrap src cb ctx) [] = Ret (B, (-1, m')) /\
    context m' = feed cb h ctx.
Proof.
  intros Hfresh Hcontent Hvalid Hfuel.
  destruct (read_created src cb ctx (feed cb h ctx) (HComplete B) fuel Hfresh)
    as (m' & Hctx & Hrun & _); [|assumption|].
  - rewrite Hcontent. apply parses_complete. assumption.
  - exists m'. auto.
Qed.

Lemma C2_sink_calls_witness :
  exists m',
    read_all 5
      (i_stream_create_metawrap
         (mem_source (txt "from:x" ++ LF :: txt "subject:re: hi" ++ LF :: LF
                      :: txt "cc:y" ++ [LF]))
         record_call []) []
    = Ret (txt "cc:y" ++ [LF], (-1, m')) /\
    context m' = [(txt "from", txt "x"); (txt "subject", txt "re: hi")].
Proof.
  apply (C2_sink_calls record_call [] _
           [(txt "from", txt "x"); (txt "subject", txt "re: hi")]
           (txt "cc:y" ++ [LF]) 5).
  - fresh_source.
  - reflexivity.
  - reflexivity.
  - simpl. lia.
Defined.

(** C3 (amended): when the header holds a non-empty line without colon
    before any empty line, the read that meets it answers -1 with
    [stream_errno = EINVAL]; up to and including that read the callback
    has been called for the lines before the bad one and for no other,
    the stream is still in its header and no payload byte has been
    delivered. *)
Theorem C3_format_error {C} (cb : metawrap_callback_t C) ctx src h bad after fuel :
  fresh src ->
  Src.content src = header_lines h ++ bad ++ LF :: after ->
  valid_header h = true ->
  no_byte LF bad = true -> no_byte COLON bad = true ->
  cstr_empty bad = false ->
  (length (Src.pending src) + 1 < fuel)%nat ->
  exists m',
    read_all fuel (i_stream_create_metawrap src cb ctx) [] = Ret ([], (-1, m')) /\
    stream_errno m' = EINVAL /\
    context m' = feed cb h ctx /\
    in_metadata m' = true /\
    v_offset m' = 0.
Proof.
  intros Hfresh Hcontent Hvalid Hlf Hcolon Hne Hfuel.
  destruct (read_created src cb ctx (feed cb h ctx) (HFormat after) fuel Hfresh)
    as (m' & Hctx & Hrun & Him & _ & Hvo & Herr); [|assumption|].
  - rewrite Hcontent. apply parses_format; assumption.
  - exists m'. auto.
Qed.

Lemma C3_format_error_witness :
  exists m',
    read_all 5
      (i_stream_create_metawrap
         (mem_source (txt "a:b" ++ LF :: txt "badline" ++ LF :: txt "BODY"))
         record_call []) []
    = Ret ([], (-1, m')) /\
    stream_errno m' = EINVAL /\
    context m' = [(txt "a", txt "b")] /\
    in_metadata m' = true /\
    v_offset m' = 0.
Proof.
  apply (C3_format_error record_call [] _ [(txt "a", txt "b")]
           (txt "badline") (txt "BODY") 5).
  - fresh_source.
  - reflexivity.
  - reflexivity.
  - reflexivity.
  - reflexivity.
  - reflexivity.
  - simpl. lia.
Defined.

(** C3, as first stated, fails: after the read that meets the bad line
    has answered -1 with EINVAL, the next read goes on with the line
    after it, calls the callback for that line, leaves the header and
    delivers payload bytes. *)
Lemma C3_counterexample :
  let m0 := i_stream_create_metawrap
              (mem_source (txt "bad" ++ LF :: txt "k:v" ++ LF :: LF
                           :: txt "BODY"))
              record_call [] in
  observe (i_stream_metawrap_read m0)
  = Some (-1, [], EINVAL, false, true, 4, []) /\
  observe (and_then (i_stream_metawrap_read m0) i_stream_metawrap_read)
  = Some (4, [(txt "k", txt "v")], EINVAL, false, false, 9, txt "BODY").
Proof. vm_compute. repeat split. Qed.

(** C4 (amended): when the content ends before an empty line closes the
    header, the read answers -1 with [eof] set and [stream_errno] equal
    to the error code of the source: the code of its failure when it has
    one, 0 when it has none; the stream stays in its header. *)
Theorem C4_truncated_header {C} (cb : metawrap_callback_t C) ctx src h partial fuel :
  fresh src ->
  Src.content src = header_lines h ++ partial ->
  valid_header h = true ->
  no_byte LF partial = true ->
  (length (Src.pending src) + 1 < fuel)%nat ->
  exists m',
    read_all fuel (i_stream_create_metawrap src cb ctx) [] = Ret ([], (-1, m')) /\
    stream_errno m' = Src.fail_errno src /\
    eof m' = true /\
    in_metadata m' = true /\
    context m' = feed cb h ctx.
Proof.
  intros Hfresh Hcontent Hvalid Hlf Hfuel.
  destruct (read_created src cb ctx (feed cb h ctx) HTruncated fuel Hfresh)
    as (m' & Hctx & Hrun & Him & Hvo & Heof & Herr & _); [|assumption|].
  - rewrite Hcontent. apply parses_cut_short; assumption.
  - exists m'. auto.
Qed.

Lemma C4_truncated_header_witness :
  exists m',
    read_all 5
      (i_stream_create_metawrap
         (nb_source (txt "a:b" ++ LF :: txt "c") [[]; txt ":d"] 5)
         record_call []) []
    = Ret ([], (-1, m')) /\
    stream_errno m' = 5 /\
    eof m' = true /\
    in_metadata m' = true /\
    context m' = [(txt "a", txt "b")].
Proof.
  apply (C4_truncated_header record_call []
           (nb_source (txt "a:b" ++ LF :: txt "c") [[]; txt ":d"] 5)
           [(txt "a", txt "b")] (txt "c:d") 5).
  - fresh_source.
  - reflexivity.
  - reflexivity.
  - reflexivity.
  - simpl. lia.
Defined.

(** C4, as first stated, fails: when the source ends cleanly in the
    middle of the header, the read answers -1 with [eof] set and
    [stream_errno] 0, which is how a plain end of file reads. *)
Lemma C4_counterexample :
  let m0 := i_stream_create_metawrap (mem_source (txt "k:v")) record_call [] in
  Src.fail_errno (parent m0) = 0 /\
  observe (i_stream_metawrap_read m0) = Some (-1, [], 0, true, true, 0, []) /\
  observe (i_stream_read m0) = Some (-1, [], 0, true, true, 0, []).
Proof. vm_compute. repeat split. Qed.

(** C9: two streams created over sources with the same byte content,
    however each source delivers it (chunks, blocking mode, error code at
    its end aside), make the same callback calls in the same order,
    deliver the same bytes, and end in the same state of the header. *)
Theorem C9_deterministic {C} (cb : metawrap_callback_t C) ctx src1 src2
    fuel1 fuel2 :
  fresh src1 -> fresh src2 ->
  Src.content src1 = Src.content src2 ->
  (length (Src.pending src1) + 1 < fuel1)%nat ->
  (length (Src.pending src2) + 1 < fuel2)%nat ->
  exists out m1 m2,
    read_all fuel1 (i_stream_create_metawrap src1 cb ctx) []
    = Ret (out, (-1, m1)) /\
    read_all fuel2 (i_stream_create_metawrap src2 cb ctx) []
    = Ret (out, (-1, m2)) /\
    context m1 = context m2 /\
    in_metadata m1 = in_metadata m2.
Proof.
  intros Hf1 Hf2 Hcontent Hfuel1 Hfuel2.
  destruct (parses_total cb _ (Src.content src1) ctx (le_n _))
    as (ctx' & e & Hparse).
  destruct (read_created src1 cb ctx ctx' e fuel1 Hf1 Hparse Hfuel1)
    as (m1 & Hc1 & Ho1).
  rewrite Hcontent in Hparse.
  destruct (read_created src2 cb ctx ctx' e fuel2 Hf2 Hparse Hfuel2)
    as (m2 & Hc2 & Ho2).
  destruct e as [B | after | ];
    [exists B | exists [] | exists []]; exists m1, m2;
    destruct Ho1 as (R1 & I1 & _); destruct Ho2 as (R2 & I2 & _);
    simpl app in R1, R2; repeat split; congruence.
Qed.

Lemma C9_deterministic_witness :
  exists out m1 m2,
    read_all 5 (i_stream_create_metawrap (mem_source scenario_A) record_call [])
             []
    = Ret (out, (-1, m1)) /\
    read_all 9
      (i_stream_create_metawrap
         (nb_source (txt "fr")
                    [txt "om:x"; LF :: txt "subj"; []; txt "ect:hi" ++ [LF; LF];
                     []; txt "BO"; txt "DY"] 0)
         record_call []) []
    = Ret (out, (-1, m2)) /\
    context m1 = context m2 /\
    in_metadata m1 = in_metadata m2.
Proof.
  apply (C9_deterministic record_call []).
  - fresh_source.
  - fresh_source.
  - reflexivity.
  - simpl. lia.
  - simpl. lia.
Defined.

(** ** Every sequence of operations *)

Lemma step_ok_refl {C} (m : metawrap_istream C) : inv m -> step_ok m m.
Proof.
  intros ((H1 & H2) & H3). unfold step_ok, inv.
  repeat split; auto; try lia.
Qed.

Lemma step_ok_trans {C} (m1 m2 m3 : metawrap_istream C) :
  step_ok m1 m2 -> step_ok m2 m3 -> step_ok m1 m3.
Proof.
  intros (A1 & A2 & A3 & A4 & A5) (B1 & B2 & B3 & B4 & B5).
  unfold step_ok. split; [assumption|]. split; [lia|].
  split; [|split; [congruence | apply (same_static_trans _ (parent m2)); assumption]].
  intros H. destruct (A3 H) as [E1 E2]. destruct (B3 E2) as [E3 E4].
  split; congruence.
Qed.

Lemma header_loop_statbuf {C} fuel : forall (m : metawrap_istream C) r m',
  header_loop fuel m = Ret (r, m') ->
  statbuf_st_size m' = statbuf_st_size m.
Proof.
  induction fuel as [|fuel IH]; intros m r m' Hrun; [discriminate|].
  simpl in Hrun.
  destruct (Src.i_stream_read_next_line (parent m)) as [res p].
  destruct res as [line|].
  - destruct (cstr_empty line); [injection Hrun as <- <-; reflexivity|].
    destruct (strchr_cut COLON line) as [[key value]|].
    + apply IH in Hrun. exact Hrun.
    + injection Hrun as <- <-. reflexivity.
  - destruct (Src.eof p); [injection Hrun as <- <-; reflexivity|].
    destruct (Src.blocking p); [discriminate|].
    injection Hrun as <- <-. reflexivity.
Qed.

Lemma content_seek p off : Src.content (Src.i_stream_seek p off) = Src.content p.
Proof. reflexivity. Qed.

Lemma same_static_seek p off q :
  same_static (Src.i_stream_seek p off) q -> same_static p q.
Proof. exact (fun H => H). Qed.

Lemma metawrap_read_step {C} (m : metawrap_istream C) r m' :
  inv m ->
  i_stream_metawrap_read m = Ret (r, m') ->
  step_ok m m' /\ statbuf_st_size m' = statbuf_st_size m.
Proof.
  intros ((Hlo & Hhi) & Hsz) Hrun.
  pose proof (buf_le_content (parent m)) as Hbc. unfold sized in Hsz.
  unfold i_stream_metawrap_read in Hrun.
  set (ms := set_parent m (Src.i_stream_seek (parent m)
                             (u64 (start_offset m + v_offset m)))) in *.
  change (in_metadata ms) with (in_metadata m) in Hrun.
  destruct (in_metadata m) eqn:Him.
  - unfold metadata_header_read in Hrun.
    destruct (header_loop _ ms) as [[ret mA]| |] eqn:Hloop;
      cbn [bind] in Hrun; try discriminate.
    destruct (v_offset mA =? 0) eqn:Hv; cbn [negb] in Hrun; [|discriminate].
    pose proof (header_loop_statbuf _ _ _ _ Hloop) as Hsb.
    apply header_loop_gen in Hloop
      as (G1 & G2 & G3 & G4 & G5 & G6 & G7 & G8 & G9 & G10).
    apply Z.eqb_eq in Hv. simpl in G1, G2, G3, G4, G5, G6, Hsb.
    rewrite content_seek in G4. apply same_static_seek in G5.
    assert (Hseek : Src.pos (parent ms) = Z.to_nat (start_offset m)).
    { simpl. rewrite <- G1, Hv, Z.add_0_r, u64_small by lia. reflexivity. }
    rewrite Hseek in G8.
    assert (Hwf : wf (parent mA)).
    { apply G7. unfold wf. rewrite Hseek. simpl. lia. }
    unfold wf in Hwf.
    destruct (ret <=? 0).
    + injection Hrun as <- <-. unfold step_ok, inv, sized, Src.v_offset. simpl.
      rewrite G4. repeat split; try assumption; try lia; try congruence;
        apply G5.
    + injection Hrun as Hrun.
      match type of Hrun with
      | i_stream_read_copy_from_parent ?x = _ =>
          pose proof (read_copy_gen x) as Hf
      end.
      rewrite Hrun in Hf. unfold copy_frame in Hf. simpl in Hf.
      destruct Hf as (F1 & F2 & F3 & F4 & F5 & F6 & F7 & F8 & F9 & F10).
      unfold step_ok, inv, sized, Src.v_offset in *.
      rewrite F2, F7, G4.
      split; [|congruence].
      split; [split; [lia | assumption]|].
      split; [lia|]. split; [congruence|].
      split; [reflexivity|].
      apply (same_static_trans _ (parent mA)); assumption.
  - injection Hrun as Hrun.
    pose proof (read_copy_gen ms) as Hf.
    rewrite Hrun in Hf. unfold copy_frame in Hf. simpl in Hf.
    destruct Hf as (F1 & F2 & F3 & F4 & F5 & F6 & F7 & F8 & F9 & F10).
    unfold step_ok, inv, sized. rewrite F2, F7.
    repeat split; try assumption; try lia; try apply F8.
    congruence.
Qed.

Lemma i_stream_read_step {C} (m : metawrap_istream C) r m' :
  inv m ->
  i_stream_read m = Ret (r, m') ->
  step_ok m m' /\ statbuf_st_size m' = statbuf_st_size m.
Proof.
  intros Hinv Hrun. unfold i_stream_read in Hrun.
  destruct (i_stream_metawrap_read (set_stream_errno (set_eof m false) 0))
    as [[ret m1]| |] eqn:Hrd; cbn [bind] in Hrun; try discriminate.
  apply metawrap_read_step in Hrd; [|exact Hinv].
  destruct Hrd as [Hstep Hsb].
  destruct ((ret =? -1) && negb (stream_errno m1 =? 0));
    injection Hrun as <- <-; split; assumption.
Qed.

Lemma s64_small z : - 2 ^ 63 <= z < 2 ^ 63 -> s64 z = z.
Proof. intros H. unfold s64. rewrite Z.mod_small; lia. Qed.

Lemma stat_step {C} (m : metawrap_istream C) exact r m' :
  inv m ->
  i_stream_metawrap_stat m exact = Ret (r, m') ->
  step_ok m m'.
Proof.
  intros Hinv Hrun. unfold i_stream_metawrap_stat, Src.i_stream_stat in Hrun.
  destruct (Src.st_size (parent m) exact) as [st|].
  2:{ injection Hrun as <- <-. apply step_ok_refl. assumption. }
  cbn [in_metadata set_statbuf_st_size] in Hrun.
  destruct (in_metadata m) eqn:Him.
  - destruct (i_stream_read (set_statbuf_st_size m st))
      as [[ret m1]| |] eqn:Hrd; cbn [bind] in Hrun; try discriminate.
    apply i_stream_read_step in Hrd; [|exact Hinv].
    destruct Hrd as [Hstep _].
    destruct (ret <? 0); [injection Hrun as <- <-; exact Hstep|].
    destruct (ret =? 0); [injection Hrun as <- <-; exact Hstep|].
    destruct (u64 (statbuf_st_size m1) <? start_offset m1); [discriminate|].
    injection Hrun as <- <-. exact Hstep.
  - destruct (u64 _ <? _); [discriminate|].
    injection Hrun as <- <-. apply (step_ok_refl m). assumption.
Qed.

Lemma run_op_step {C} o (m m' : metawrap_istream C) :
  inv m -> run_op o m = Ret m' -> step_ok m m'.
Proof.
  intros Hinv Hrun. destruct o as [|exact|n]; simpl in Hrun.
  - destruct (i_stream_read m) as [[ret m1]| |] eqn:Hrd;
      cbn [bind] in Hrun; try discriminate.
    injection Hrun as <-. apply (i_stream_read_step m ret m1); assumption.
  - destruct (i_stream_metawrap_stat m exact) as [[ret m1]| |] eqn:Hst;
      cbn [bind] in Hrun; try discriminate.
    injection Hrun as <-. apply (stat_step m exact ret m1); assumption.
  - injection Hrun as <-. apply (step_ok_refl m). assumption.
Qed.

Lemma run_ops_step {C} ops : forall (m m' : metawrap_istream C),
  inv m -> run_ops ops m = Ret m' -> step_ok m m'.
Proof.
  induction ops as [|o ops IH]; intros m m' Hinv Hrun; simpl in Hrun.
  - injection Hrun as <-. apply step_ok_refl. assumption.
  - destruct (run_op o m) as [m1| |] eqn:Hop; cbn [bind] in Hrun;
      try discriminate.
    pose proof (run_op_step o m m1 Hinv Hop) as H1.
    apply (step_ok_trans m m1 m'); [assumption|].
    apply IH; [apply H1 | assumption].
Qed.

Lemma create_inv {C} src (cb : metawrap_callback_t C) ctx :
  sized src -> inv (i_stream_create_metawrap src cb ctx).
Proof. intros H. unfold inv. simpl. repeat split; try assumption; lia. Qed.

(** A read of a stream in its header leaves the parent's offset in
    [start_offset], whatever it answers. *)
Lemma header_read_stores_offset {C} (m : metawrap_istream C) r m' :
  in_metadata m = true ->
  i_stream_metawrap_read m = Ret (r, m') ->
  start_offset m' = Src.v_offset (parent m').
Proof.
  intros Him Hrun. unfold i_stream_metawrap_read in Hrun.
  cbn [in_metadata set_parent] in Hrun. rewrite Him in Hrun.
  destruct (metadata_header_read _) as [[ret mA]| |];
    cbn [bind] in Hrun; try discriminate.
  destruct (negb (v_offset mA =? 0)); [discriminate|].
  destruct (ret <=? 0).
  - injection Hrun as <- <-. reflexivity.
  - injection Hrun as Hrun.
    match type of Hrun with
    | i_stream_read_copy_from_parent ?x = _ =>
        pose proof (read_copy_gen x) as Hf
    end.
    rewrite Hrun in Hf. unfold copy_frame in Hf. simpl in Hf.
    destruct Hf as (F1 & F2 & F3 & F4 & F5 & F6 & F7 & F8 & F9 & F10).
    unfold Src.v_offset in *. congruence.
Qed.

(** C5 (amended): across every sequence of operations on one stream,
    [start_offset] never decreases, and once the header is complete
    ([in_metadata] cleared) it keeps its value and the stream stays past
    its header; while the stream is in its header, every read that
    returns stores the parent's current offset in [start_offset], also
    when it answers 0 (more input needed) or -1 (failure). *)
Theorem C5_start_offset_monotone {C} src (cb : metawrap_callback_t C) ctx
    ops1 ops2 m1 m2 :
  sized src ->
  run_ops ops1 (i_stream_create_metawrap src cb ctx) = Ret m1 ->
  run_ops ops2 m1 = Ret m2 ->
  start_offset m1 <= start_offset m2 /\
  (in_metadata m1 = false ->
   start_offset m2 = start_offset m1 /\ in_metadata m2 = false) /\
  (forall r m3,
      in_metadata m1 = true ->
      i_stream_metawrap_read m1 = Ret (r, m3) ->
      start_offset m3 = Src.v_offset (parent m3)).
Proof.
  intros Hsz Hrun1 Hrun2.
  pose proof (run_ops_step ops1 _ m1 (create_inv src cb ctx Hsz) Hrun1)
    as (Hinv1 & _).
  pose proof (run_ops_step ops2 m1 m2 Hinv1 Hrun2) as (_ & Hmono & Hkeep & _).
  split; [assumption|]. split; [assumption|].
  intros r m3. apply header_read_stores_offset.
Qed.

Lemma C5_start_offset_monotone_witness :
  let src := nb_source (txt "a:b" ++ [LF]) [[]; LF :: txt "XY"] 0 in
  let m0 := i_stream_create_metawrap src record_call [] in
  (* after a first read, which answers 0 in the header *)
  let m1 := final (run_ops [OpRead] m0) m0 in
  let m2 := final (run_ops [OpRead; OpStat true; OpSkip 1; OpRead] m1) m1 in
  let m3 := state_of (i_stream_metawrap_read m1) m1 in
  (* after a second read, which completes the header *)
  let n1 := final (run_ops [OpRead; OpRead] m0) m0 in
  let n2 := final (run_ops [OpSkip 2; OpStat false; OpRead] n1) n1 in
  (start_offset m1 <= start_offset m2 /\
   start_offset m3 = Src.v_offset (parent m3)) /\
  (start_offset n2 = start_offset n1 /\ in_metadata n2 = false).
Proof.
  intros src m0 m1 m2 m3 n1 n2.
  assert (Hsz : sized src) by (vm_compute; reflexivity).
  split.
  - destruct (C5_start_offset_monotone src record_call [] [OpRead]
                [OpRead; OpStat true; OpSkip 1; OpRead] m1 m2 Hsz)
      as (Hmono & _ & Hstore);
      [vm_compute; reflexivity | vm_compute; reflexivity |].
    split; [exact Hmono|].
    apply (Hstore 2 m3); vm_compute; reflexivity.
  - destruct (C5_start_offset_monotone src record_call [] [OpRead; OpRead]
                [OpSkip 2; OpStat false; OpRead] n1 n2 Hsz)
      as (_ & Hkeep & _);
      [vm_compute; reflexivity | vm_compute; reflexivity |].
    apply Hkeep. vm_compute. reflexivity.
Defined.

(** C5, as first stated, fails: on a non-blocking source whose first
    header line has arrived and whose next read finds nothing yet, the
    read answers 0 with the stream still in its header and has moved
    [start_offset] from 0 to 4; the next read moves it again, to 5. *)
Lemma C5_counterexample :
  let m0 := i_stream_create_metawrap
              (nb_source (txt "a:b" ++ [LF]) [[]; [LF]] 0) record_call [] in
  start_offset m0 = 0 /\
  observe (i_stream_metawrap_read m0)
  = Some (0, [(txt "a", txt "b")], 0, false, true, 4, []) /\
  observe (and_then (i_stream_metawrap_read m0) i_stream_metawrap_read)
  = Some (-1, [(txt "a", txt "b")], 0, true, false, 5, []).
Proof. vm_compute. repeat split. Qed.

(** ** The assertion on the size *)



Lemma honest_transfer p p' :
  honest p -> Src.content p' = Src.content p -> same_static p p' -> honest p'.
Proof.
  unfold honest. intros H Hc (_ & Hst & _) exact sz Hsz.
  rewrite Hc. apply (H exact). rewrite <- Hst. assumption.
Qed.

(** With an honest source the subtraction of [start_offset] is safe. *)
Lemma finish_safe {C} (m : metawrap_istream C) sz :
  inv m ->
  Z.of_nat (length (Src.content (parent m))) <= sz < 2 ^ 63 ->
  (u64 sz <? start_offset m) = false.
Proof.
  intros ((Hlo & Hhi) & _) Hsz.
  pose proof (buf_le_content (parent m)).
  apply Z.ltb_ge. rewrite u64_small; lia.
Qed.










(** ** The header read on a blocking parent *)

(** C10: when [metadata_header_read] answers 0 the parent is
    non-blocking; on a blocking parent the header read either completes
    the header (1), fails (-1), or trips the assertion on the parent's
    blocking mode: it never answers 0 and always ends. *)
Theorem C10_zero_means_nonblocking {C} (m : metawrap_istream C) :
  (forall m', metadata_header_read m = Ret (0, m') ->
              Src.blocking (parent m) = false) /\
  (Src.blocking (parent m) = true ->
   (exists m', metadata_header_read m = Ret (1, m')) \/
   (exists m', metadata_header_read m = Ret (-1, m')) \/
   metadata_header_read m = Abort AssertParentNotBlocking).
Proof.
  unfold metadata_header_read. split.
  - intros m' Hrun.
    apply header_loop_gen in Hrun as (_ & _ & _ & _ & _ & _ & _ & _ & H0 & _).
    apply H0. reflexivity.
  - intros Hbl.
    destruct (header_loop (header_fuel (parent m)) m) as [[r m']| site |] eqn:Hrun.
    + pose proof (header_loop_gen _ _ _ _ Hrun)
        as (_ & _ & _ & _ & _ & _ & _ & _ & H0 & [-> | [-> | ->]]).
      * left. exists m'. reflexivity.
      * rewrite H0 in Hbl by reflexivity. discriminate.
      * right. left. exists m'. reflexivity.
    + apply header_loop_abort in Hrun as [-> _]. right. right. reflexivity.
    + exfalso. apply (header_loop_total _ _ (Nat.lt_succ_diag_r _) Hrun).
Qed.

Lemma C10_zero_means_nonblocking_witness :
  let waiting := i_stream_create_metawrap
                   (nb_source (txt "a:b" ++ [LF]) [[]; [LF]] 0)
                   record_call [] in
  let blocking_one := i_stream_create_metawrap (mem_source scenario_A)
                        record_call [] in
  Src.blocking (parent waiting) = false /\
  ((exists m', metadata_header_read blocking_one = Ret (1, m')) \/
   (exists m', metadata_header_read blocking_one = Ret (-1, m')) \/
   metadata_header_read blocking_one = Abort AssertParentNotBlocking).
Proof.
  intros waiting blocking_one. split.
  - apply (proj1 (C10_zero_means_nonblocking waiting)
                 (state_of (metadata_header_read waiting) waiting)).
    vm_compute. reflexivity.
  - apply (proj2 (C10_zero_means_nonblocking blocking_one)).
    reflexivity.
Defined.

(** ** The scenarios of the specification *)

(** Scenario A: two header lines, then BODY; the size is 4. *)
Example scenario_A_runs :
  let m0 := i_stream_create_metawrap (mem_source scenario_A) record_call [] in
  outcome_of (read_all 5 m0 [])
  = Some (txt "BODY", -1,
          [(txt "from", txt "x"); (txt "subject", txt "hi")], 0, false) /\
  observe_stat (i_stream_metawrap_stat m0 true) = Some (0, 4, false, 19).
Proof. vm_compute. split; reflexivity. Qed.

(** Scenario B: an empty header, then BODY; no call, the size is 4. *)
Example scenario_B_runs :
  let m0 := i_stream_create_metawrap (mem_source scenario_B) record_call [] in
  outcome_of (read_all 5 m0 []) = Some (txt "BODY", -1, [], 0, false) /\
  observe_stat (i_stream_metawrap_stat m0 true) = Some (0, 4, false, 1).
Proof. vm_compute. split; reflexivity. Qed.

(** Scenario C: a line without colon; the read fails with EINVAL and
    nothing is delivered. *)
Example scenario_C_runs :
  let m0 := i_stream_create_metawrap (mem_source scenario_C) record_call [] in
  outcome_of (read_all 5 m0 []) = Some ([], -1, [], EINVAL, true) /\
  observe (i_stream_metawrap_read m0)
  = Some (-1, [], EINVAL, false, true, 8, []).
Proof. vm_compute. split; reflexivity. Qed.

(** A non-blocking source whose header has not all arrived: stat
    succeeds and reports the size as unknown; once the rest has arrived,
    stat reports the source size minus the header length. *)
Example stat_unknown_then_known :
  let m0 := i_stream_create_metawrap
              (nb_source (txt "a:b" ++ [LF]) [[]; LF :: txt "XY"] 0)
              record_call [] in
  observe_stat (i_stream_metawrap_stat m0 true) = Some (0, -1, true, 4) /\
  observe_stat (and_then (i_stream_metawrap_stat m0 true)
                         (fun m => i_stream_metawrap_stat m true))
  = Some (0, 2, false, 5).
Proof. vm_compute. split; reflexivity. Qed.

(** ** The size of an empty payload *)

(** C6 at its failing input: over a source of 5 bytes that are a
    complete header with no payload after it, the first stat answers -1
    although the source's stat succeeds and the header has been read
    ([start_offset] is 5); asked again, stat answers 0 with size 0, the
    source size minus [start_offset]. *)
Theorem C6_stat_empty_payload :
  let m0 := i_stream_create_metawrap (mem_source (txt "k:v" ++ [LF; LF]))
              record_call [] in
  Src.i_stream_stat (parent m0) true = Some 5 /\
  observe_stat (i_stream_metawrap_stat m0 true) = Some (-1, 5, false, 5) /\
  observe_stat (and_then (i_stream_metawrap_stat m0 true)
                         (fun m => i_stream_metawrap_stat m true))
  = Some (0, 0, false, 5).
Proof. vm_compute. repeat split. Qed.

(** ** After a failure *)

Lemma stuck_read {C} (m : metawrap_istream C) :
  stuck m ->
  exists m',
    i_stream_read m = Ret (-1, m') /\
    failed m' /\
    context m' = context m /\
    Src.fail_errno (parent m') = Src.fail_errno (parent m) /\
    statbuf_st_size m' = statbuf_st_size m.
Proof.
  intros (Hhead & Hpend & Hnolf).
  rewrite (heading_read m Hhead).
  destruct Hhead as (Him & Hvo & Hsk & Hps & Hso & Hwf & Hsz & Hwb).
  set (m0 := set_stream_errno (set_eof m false) 0).
  destruct (header_loop_spec (callback m) _ (context m) _ _
              (parses_truncated _ _ _ Hnolf) (header_fuel (parent m)) m0)
    as (p' & Hcont & Hstat & Hsuf & Hwf' & Hend);
    try reflexivity; try assumption.
  { unfold header_fuel. rewrite rest_length. lia. }
  cbn [parent m0 set_stream_errno set_eof] in Hcont, Hstat, Hsuf, Hend.
  pose proof Hstat as (Hfe & Hst & Hbl).
  destruct Hend as [(Hloop & Hpend' & Hnolf') | (ctx1 & _ & _ & Hshort & _)].
  2:{ rewrite Hpend in Hshort. simpl in Hshort. lia. }
  rewrite Hloop. cbn [bind]. simpl v_offset. rewrite Hvo. cbn [Z.eqb negb].
  cbv zeta. cbn [Z.leb Z.compare bind]. rewrite if_ret. cbn [bind].
  eexists. split; [reflexivity|].
  match goal with
  | |- context [if ?b then set_eof ?x true else ?x] =>
      destruct (mark_eof_fields b x)
        as (E1 & E2 & E3 & E4 & E5 & E6 & E7 & E8 & E9 & E10 & E11);
      cbv zeta in *;
      set (m' := if b then set_eof x true else x) in *
  end.
  assert (Hsb : statbuf_st_size m' = statbuf_st_size m)
    by (unfold m'; destruct (_ && _); reflexivity).
  unfold failed, stuck, heading.
  rewrite E1, E3, E4, E5, E6, E7, E8, E10. simpl.
  assert (Hwb' : well_behaved p')
    by (apply (well_behaved_suffix (parent m)); assumption).
  assert (Hsz' : sized p') by (unfold sized; rewrite Hcont; assumption).
  repeat split; try assumption; try reflexivity;
    try (symmetry; assumption); try (apply E11; reflexivity).
Qed.

Lemma failed_op {C} o (m : metawrap_istream C) :
  failed m ->
  exists m',
    run_op o m = Ret m' /\
    failed m' /\
    context m' = context m /\
    Src.fail_errno (parent m') = Src.fail_errno (parent m).
Proof.
  intros (Hstuck & Herr & Heof). destruct o as [|exact|n]; simpl.
  - destruct (stuck_read m Hstuck) as (m' & Hrd & Hf & Hc & Hfe & _).
    rewrite Hrd. cbn [bind]. exists m'. auto.
  - unfold i_stream_metawrap_stat, Src.i_stream_stat.
    destruct (Src.st_size (parent m) exact) as [st|].
    + cbn [in_metadata set_statbuf_st_size].
      pose proof Hstuck as ((Him & _) & _). rewrite Him.
      destruct (stuck_read (set_statbuf_st_size m st) Hstuck)
        as (m' & Hrd & Hf & Hc & Hfe & _).
      rewrite Hrd. cbn [bind]. cbn [Z.ltb Z.compare].
      exists m'. auto.
    + cbn [bind]. exists m. unfold failed. auto.
  - exists (i_stream_skip m n). split; [reflexivity|].
    destruct Hstuck as ((Him & Hvo & Hsk & Hps & Hso & Hrest) & Hpend & Hnolf).
    unfold failed, stuck, heading, i_stream_skip. simpl.
    rewrite Hps, Hsk, Hvo. simpl. rewrite Nat.min_0_r. simpl.
    repeat split; try assumption; apply Hrest.
Qed.

Lemma failed_ops {C} ops : forall (m : metawrap_istream C),
  failed m ->
  exists m',
    run_ops ops m = Ret m' /\
    failed m' /\
    context m' = context m /\
    Src.fail_errno (parent m') = Src.fail_errno (parent m).
Proof.
  induction ops as [|o ops IH]; intros m Hf; simpl.
  - exists m. auto.
  - destruct (failed_op o m Hf) as (m1 & Hop & Hf1 & Hc1 & Hfe1).
    rewrite Hop. cbn [bind].
    destruct (IH m1 Hf1) as (m' & Hrun & Hf' & Hc' & Hfe').
    exists m'. split; [assumption|]. split; [assumption|]. split; congruence.
Qed.

(** C8 (amended): after a read has failed because the content ended
    within the header, no later operation makes progress: whatever is
    called next, the callback is not called again, the stream stays in
    its header, shows no byte, and keeps the error code of the source as
    its own.  (After a format error the stream keeps no mark of the
    failure: a later read goes on with the line after the bad one.) *)
Theorem C8_truncation_is_final {C} (cb : metawrap_callback_t C) ctx src h
    partial fuel ops :
  fresh src ->
  Src.content src = header_lines h ++ partial ->
  valid_header h = true ->
  no_byte LF partial = true ->
  (length (Src.pending src) + 1 < fuel)%nat ->
  exists m1 m2,
    read_all fuel (i_stream_create_metawrap src cb ctx) [] = Ret ([], (-1, m1)) /\
    run_ops ops m1 = Ret m2 /\
    context m2 = context m1 /\
    in_metadata m2 = true /\
    stream_errno m2 = stream_errno m1 /\
    i_stream_get_data m2 = [].
Proof.
  intros Hfresh Hcontent Hvalid Hlf Hfuel.
  destruct (read_created src cb ctx (feed cb h ctx) HTruncated fuel Hfresh)
    as (m1 & Hctx & Hrun & Him & Hvo & Heof & Herr & Hstuck & Hfe);
    [|assumption|].
  { rewrite Hcontent. apply parses_cut_short; assumption. }
  assert (Hf1 : failed m1).
  { unfold failed. repeat split; try assumption; try apply Hstuck. congruence. }
  destruct (failed_ops ops m1 Hf1) as (m2 & Hops & Hf2 & Hc2 & Hfe2).
  exists m1, m2.
  destruct Hf2 as (((Him2 & _ & Hsk2 & Hps2 & _) & _) & Herr2 & _).
  repeat split; try assumption.
  - congruence.
  - unfold i_stream_get_data. rewrite Hsk2, Hps2. reflexivity.
Qed.

Lemma C8_truncation_is_final_witness :
  exists m1 m2,
    read_all 5
      (i_stream_create_metawrap
         (nb_source (txt "a:b" ++ LF :: txt "c") [[]; txt ":d"] 5)
         record_call []) []
    = Ret ([], (-1, m1)) /\
    run_ops [OpRead; OpStat true; OpSkip 3; OpRead] m1 = Ret m2 /\
    context m2 = context m1 /\
    in_metadata m2 = true /\
    stream_errno m2 = stream_errno m1 /\
    i_stream_get_data m2 = [].
Proof.
  apply (C8_truncation_is_final record_call []
           (nb_source (txt "a:b" ++ LF :: txt "c") [[]; txt ":d"] 5)
           [(txt "a", txt "b")] (txt "c:d") 5
           [OpRead; OpStat true; OpSkip 3; OpRead]).
  - fresh_source.
  - reflexivity.
  - reflexivity.
  - reflexivity.
  - simpl. lia.
Defined.

(** C8, as first stated, fails: after a read has answered -1 for a line
    without colon, the next read calls the callback for the following
    line, leaves the header, delivers payload bytes and clears the error
    code. *)
Lemma C8_counterexample :
  let m0 := i_stream_create_metawrap
              (nb_source (txt "x" ++ LF :: txt "from:a" ++ [LF; LF])
                         [txt "DATA"] 0)
              record_call [] in
  observe (i_stream_metawrap_read m0)
  = Some (-1, [], EINVAL, false, true, 2, []) /\
  observe (and_then (i_stream_metawrap_read m0) i_stream_metawrap_read)
  = Some (4, [(txt "from", txt "a")], 0, false, false, 10, txt "DATA") /\
  observe (and_then (i_stream_read m0) (fun m => i_stream_metawrap_stat m true))
  = Some (0, [(txt "from", txt "a")], 0, false, false, 10, txt "DATA").
Proof. vm_compute. repeat split. Qed.

(** ** What every operation keeps *)

Lemma kept_refl {C} (m : metawrap_istream C) : kept m m.
Proof. unfold kept. repeat split. Qed.

Lemma kept_trans {C} (m1 m2 m3 : metawrap_istream C) :
  kept m1 m2 -> kept m2 m3 -> kept m1 m3.
Proof. unfold kept. intuition congruence. Qed.

Lemma shrunk_refl p : shrunk p p.
Proof. exists []. reflexivity. Qed.

Lemma shrunk_trans p q r : shrunk p q -> shrunk q r -> shrunk p r.
Proof.
  intros [a Ha] [b Hb]. exists (a ++ b). rewrite Ha, Hb. apply app_assoc.
Qed.

Lemma src_read_shrunk p : shrunk p (snd (Src.i_stream_read p)).
Proof.
  unfold shrunk, Src.i_stream_read.
  destruct (Src.pending p) as [|c cs]; simpl.
  - exists []. reflexivity.
  - exists [c]. reflexivity.
Qed.

Lemma moved_refl {C} (m : metawrap_istream C) : moved m m.
Proof.
  unfold moved.
  split; [apply kept_refl|]. split; [reflexivity|].
  split; [apply same_static_refl|]. split; [apply shrunk_refl|].
  split; [auto|]. split; [auto|]. intros H1 H2. congruence.
Qed.

Lemma moved_trans {C} (m1 m2 m3 : metawrap_istream C) :
  moved m1 m2 -> moved m2 m3 -> moved m1 m3.
Proof.
  intros (A1 & A2 & A3 & A4 & A5 & A6 & A7) (B1 & B2 & B3 & B4 & B5 & B6 & B7).
  unfold moved.
  split; [apply (kept_trans _ m2); assumption|].
  split; [congruence|].
  split; [apply (same_static_trans _ (parent m2)); assumption|].
  split; [apply (shrunk_trans _ (parent m2)); assumption|].
  split; [|split].
  - intros H. destruct (A5 H) as (E1 & E2 & E3 & E4).
    destruct (B5 E1) as (F1 & F2 & F3 & F4). repeat split; congruence.
  - intros H. destruct (B6 H) as (E1 & E2). destruct (A6 E1) as (F1 & F2).
    split; congruence.
  - intros H1 H3. destruct (in_metadata m2) eqn:H2.
    + destruct (A6 eq_refl) as (_ & E). rewrite <- E. apply B7; auto.
    + destruct (B5 eq_refl) as (_ & _ & E1 & E2). rewrite E1, E2. apply A7; auto.
Qed.

(** The header loop writes the parent, the context and the error marks
    only. *)
Lemma header_loop_kept {C} fuel : forall (m : metawrap_istream C) r m',
  header_loop fuel m = Ret (r, m') ->
  kept m m' /\
  skip m' = skip m /\ pos m' = pos m /\ buffer m' = buffer m /\
  abs_start_offset m' = abs_start_offset m /\
  shrunk (parent m) (parent m').
Proof.
  induction fuel as [|fuel IH]; intros m r m' Hrun; [discriminate|].
  simpl in Hrun.
  destruct (Src.i_stream_read_next_line (parent m)) as [res p] eqn:Hrd.
  pose proof (i_stream_read_next_line_spec _ _ _ Hrd)
    as (_ & _ & Hsuf & _).
  assert (Hdone : forall mx : metawrap_istream C,
             kept m mx -> skip mx = skip m -> pos mx = pos m ->
             buffer mx = buffer m ->
             abs_start_offset mx = abs_start_offset m ->
             parent mx = p ->
             kept m mx /\ skip mx = skip m /\ pos mx = pos m /\
             buffer mx = buffer m /\
             abs_start_offset mx = abs_start_offset m /\
             shrunk (parent m) (parent mx)).
  { intros mx K1 K2 K3 K4 K5 K6. rewrite K6. repeat split; try assumption;
      apply K1. }
  destruct res as [line|].
  - destruct (cstr_empty line).
    + injection Hrun as <- <-. apply Hdone; try reflexivity; unfold kept; simpl; repeat split.
    + destruct (strchr_cut COLON line) as [[key value]|].
      * apply IH in Hrun. simpl in Hrun.
        destruct Hrun as (K & H1 & H2 & H3 & H4 & H5).
        repeat (split; [first [assumption | apply K]|]).
        apply (shrunk_trans _ p); assumption.
      * injection Hrun as <- <-. apply Hdone; try reflexivity; unfold kept; simpl; repeat split.
  - destruct (Src.eof p).
    + injection Hrun as <- <-. apply Hdone; try reflexivity; unfold kept; simpl; repeat split.
    + destruct (Src.blocking p); [discriminate|].
      injection Hrun as <- <-. apply Hdone; try reflexivity; unfold kept; simpl; repeat split.
Qed.

(** A well-behaved parent never trips the assertion of the header
    loop. *)
Lemma header_loop_no_abort {C} fuel : forall (m : metawrap_istream C) site,
  well_behaved (parent m) ->
  header_loop fuel m <> Abort site.
Proof.
  induction fuel as [|fuel IH]; intros m site Hwb Hrun; [discriminate|].
  simpl in Hrun.
  destruct (Src.i_stream_read_next_line (parent m)) as [res p] eqn:Hrd.
  pose proof (i_stream_read_next_line_spec _ _ _ Hrd)
    as (_ & (_ & _ & Hbl) & Hsuf & _ & Hres).
  destruct res as [line|].
  - destruct (cstr_empty line); [discriminate|].
    destruct (strchr_cut COLON line) as [[key value]|]; [|discriminate].
    apply IH in Hrun; [assumption|]. simpl.
    apply (well_behaved_suffix (parent m)); assumption.
  - destruct Hres as (_ & [(Heof & _)|(Heof & pre & Hpre)]).
    + rewrite Heof in Hrun. discriminate.
    + rewrite Heof in Hrun.
      destruct (Src.blocking p) eqn:E; [|discriminate].
      apply Hwb; [congruence|]. rewrite Hpre. apply in_or_app. right. left.
      reflexivity.
Qed.

(** The passthrough read leaves the window on the parent's unread bytes,
    all shown and none skipped. *)
Lemma copy_loop_window {C} n : forall (m : metawrap_istream C),
  let m' := snd (copy_loop n m) in
  buffer m' = Src.unread (parent m') /\
  skip m' = skip m /\ pos m' = pos m /\
  kept m m' /\ abs_start_offset m' = abs_start_offset m /\
  shrunk (parent m) (parent m').
Proof.
  induction n as [|n IH]; intros m; simpl;
    destruct (Src.i_stream_read (parent m)) as [ret p] eqn:Hrd;
    pose proof (src_read_shrunk (parent m)) as Hs;
    rewrite Hrd in Hs; simpl in Hs;
    match goal with |- context [if ?b then _ else _] => destruct b end;
    try (simpl; repeat split; assumption).
  specialize (IH (set_window
                    (set_eof (set_stream_errno (set_parent m p)
                                               (Src.stream_errno p))
                             (Src.eof p))
                    (Src.unread p) (skip m) (pos m))).
  simpl in IH. destruct IH as (I1 & I2 & I3 & I4 & I5 & I6).
  repeat (split; [first [assumption | apply I4]|]).
  apply (shrunk_trans _ p); assumption.
Qed.

Lemma read_copy_window {C} (m : metawrap_istream C) :
  let m' := snd (i_stream_read_copy_from_parent m) in
  buffer m' = Src.unread (parent m') /\
  skip m' = 0%nat /\ pos m' = length (buffer m') /\
  kept m m' /\ abs_start_offset m' = abs_start_offset m /\
  shrunk (parent m) (parent m').
Proof.
  unfold i_stream_read_copy_from_parent.
  set (m0 := set_window m (Src.unread (parent m)) 0 (pos m - skip m)).
  destruct (pos m0 <? length (buffer m0))%nat.
  - simpl. repeat split. apply shrunk_refl.
  - pose proof (copy_loop_window (length (Src.pending (parent m0))) m0) as H.
    destruct (copy_loop _ m0) as [ret m1]. subst m0. simpl in *.
    destruct H as (H1 & H2 & H3 & H4 & H5 & H6).
    repeat (split; [first [assumption | reflexivity | apply H4]|]). assumption.
Qed.

Lemma metawrap_read_moved {C} (m : metawrap_istream C) r m' :
  i_stream_metawrap_read m = Ret (r, m') ->
  moved m m' /\ v_offset m' = v_offset m /\
  (in_metadata m' = true ->
   skip m' = skip m /\ pos m' = pos m /\ buffer m' = buffer m).
Proof.
  intros Hrun. unfold i_stream_metawrap_read in Hrun.
  set (ms := set_parent m (Src.i_stream_seek (parent m)
                             (u64 (start_offset m + v_offset m)))) in *.
  change (in_metadata ms) with (in_metadata m) in Hrun.
  destruct (in_metadata m) eqn:Him.
  - unfold metadata_header_read in Hrun.
    destruct (header_loop _ ms) as [[ret mA]| |] eqn:Hloop;
      cbn [bind] in Hrun; try discriminate.
    destruct (v_offset mA =? 0) eqn:Hv; cbn [negb] in Hrun; [|discriminate].
    pose proof (header_loop_kept _ _ _ _ Hloop) as (K & K1 & K2 & K3 & K4 & K5).
    apply header_loop_gen in Hloop
      as (G1 & G2 & G3 & G4 & G5 & G6 & G7 & G8 & G9 & G10).
    simpl in G1, G2, G3, G4, G5, K, K1, K2, K3, K4, K5.
    rewrite content_seek in G4. apply same_static_seek in G5.
    change (shrunk (parent m) (parent mA)) in K5.
    change (kept m mA) in K.
    destruct (ret <=? 0).
    + injection Hrun as <- <-. unfold moved. simpl.
      split; [|split; [assumption | intros _; repeat split; assumption]].
      split; [exact K|].
      repeat (split; [assumption|]).
      split; [intros H; congruence|].
      split; [intros _; split; [exact Him | assumption]|].
      intros _ H. congruence.
    + injection Hrun as Hrun.
      match type of Hrun with
      | i_stream_read_copy_from_parent ?x = _ =>
          pose proof (read_copy_gen x) as Hf;
          pose proof (read_copy_window x) as Hw
      end.
      rewrite Hrun in Hf, Hw. unfold copy_frame in Hf. simpl in Hf, Hw.
      destruct Hf as (F1 & F2 & F3 & F4 & F5 & F6 & F7 & F8 & F9 & F10).
      destruct Hw as (W1 & W2 & W3 & W4 & W5 & W6).
      change (kept mA m') in W4.
      split; [|split; [congruence | intros H; congruence]].
      unfold moved.
      split; [apply (kept_trans _ mA); assumption|].
      split; [congruence|].
      split; [apply (same_static_trans _ (parent mA)); assumption|].
      split; [apply (shrunk_trans _ (parent mA)); assumption|].
      split; [intros H; congruence|].
      split; [intros H; congruence|].
      intros _ _. rewrite W5, F2, K4. reflexivity.
  - injection Hrun as Hrun.
    pose proof (read_copy_gen ms) as Hf.
    pose proof (read_copy_window ms) as Hw.
    rewrite Hrun in Hf, Hw. unfold copy_frame in Hf. simpl in Hf, Hw.
    destruct Hf as (F1 & F2 & F3 & F4 & F5 & F6 & F7 & F8 & F9 & F10).
    destruct Hw as (W1 & W2 & W3 & W4 & W5 & W6).
    change (kept m m') in W4. change (shrunk (parent m) (parent m')) in W6.
    split; [|split; [assumption | intros H; congruence]].
    unfold moved.
    repeat (split; [first [assumption | apply F8]|]).
    split; [intros _; repeat split; congruence|].
    split; [intros H; congruence|].
    intros H; congruence.
Qed.

Lemma i_stream_read_moved {C} (m : metawrap_istream C) r m' :
  i_stream_read m = Ret (r, m') ->
  moved m m' /\ v_offset m' = v_offset m /\
  (in_metadata m' = true ->
   skip m' = skip m /\ pos m' = pos m /\ buffer m' = buffer m).
Proof.
  intros Hrun. unfold i_stream_read in Hrun.
  destruct (i_stream_metawrap_read (set_stream_errno (set_eof m false) 0))
    as [[ret m1]| |] eqn:Hrd; cbn [bind] in Hrun; try discriminate.
  apply metawrap_read_moved in Hrd.
  destruct ((ret =? -1) && negb (stream_errno m1 =? 0));
    injection Hrun as <- <-; exact Hrd.
Qed.

Lemma stat_moved {C} (m : metawrap_istream C) exact r m' :
  i_stream_metawrap_stat m exact = Ret (r, m') ->
  moved m m' /\ v_offset m' = v_offset m /\
  (in_metadata m' = true ->
   skip m' = skip m /\ pos m' = pos m /\ buffer m' = buffer m).
Proof.
  intros Hrun. unfold i_stream_metawrap_stat, Src.i_stream_stat in Hrun.
  assert (Hsame : forall z,
             moved m (set_statbuf_st_size m z) /\
             v_offset (set_statbuf_st_size m z) = v_offset m /\
             (in_metadata (set_statbuf_st_size m z) = true ->
              skip (set_statbuf_st_size m z) = skip m /\
              pos (set_statbuf_st_size m z) = pos m /\
              buffer (set_statbuf_st_size m z) = buffer m)).
  { intros z. split; [exact (moved_refl m)|]. repeat split. }
  destruct (Src.st_size (parent m) exact) as [st|].
  2:{ injection Hrun as <- <-. split; [apply moved_refl|]. repeat split. }
  cbn [in_metadata set_statbuf_st_size] in Hrun.
  destruct (in_metadata m) eqn:Him.
  - destruct (i_stream_read (set_statbuf_st_size m st))
      as [[ret m1]| |] eqn:Hrd; cbn [bind] in Hrun; try discriminate.
    apply i_stream_read_moved in Hrd.
    assert (Hm1 : forall z,
               moved m (set_statbuf_st_size m1 z) /\
               v_offset (set_statbuf_st_size m1 z) = v_offset m /\
               (in_metadata (set_statbuf_st_size m1 z) = true ->
                skip (set_statbuf_st_size m1 z) = skip m /\
                pos (set_statbuf_st_size m1 z) = pos m /\
                buffer (set_statbuf_st_size m1 z) = buffer m)).
    { intros z. exact Hrd. }
    destruct (ret <? 0); [injection Hrun as <- <-; exact Hrd|].
    destruct (ret =? 0); [injection Hrun as <- <-; apply Hm1|].
    destruct (u64 (statbuf_st_size m1) <? start_offset m1); [discriminate|].
    injection Hrun as <- <-. apply Hm1.
  - destruct (u64 _ <? _); [discriminate|].
    injection Hrun as <- <-. apply (Hsame (s64 (st - start_offset m))).
Qed.

Lemma skip_moved {C} (m : metawrap_istream C) n :
  moved m (i_stream_skip m n).
Proof. exact (moved_refl m). Qed.

Lemma run_op_moved {C} o (m m' : metawrap_istream C) :
  run_op o m = Ret m' ->
  moved m m' /\ (is_handler o = true -> v_offset m' = v_offset m).
Proof.
  intros Hrun. destruct o as [|exact|n]; simpl in Hrun.
  - destruct (i_stream_read m) as [[ret m1]| |] eqn:Hrd;
      cbn [bind] in Hrun; try discriminate.
    injection Hrun as <-. apply i_stream_read_moved in Hrd.
    split; [apply Hrd|]. intros _. apply Hrd.
  - destruct (i_stream_metawrap_stat m exact) as [[ret m1]| |] eqn:Hst;
      cbn [bind] in Hrun; try discriminate.
    injection Hrun as <-. apply stat_moved in Hst.
    split; [apply Hst|]. intros _. apply Hst.
  - injection Hrun as <-. split; [apply skip_moved|]. discriminate.
Qed.

Lemma run_ops_moved {C} ops : forall (m m' : metawrap_istream C),
  run_ops ops m = Ret m' ->
  moved m m' /\ (forallb is_handler ops = true -> v_offset m' = v_offset m).
Proof.
  induction ops as [|o ops IH]; intros m m' Hrun; simpl in Hrun.
  - injection Hrun as <-. split; [apply moved_refl | reflexivity].
  - destruct (run_op o m) as [m1| |] eqn:Hop; cbn [bind] in Hrun;
      try discriminate.
    apply run_op_moved in Hop. apply IH in Hrun.
    destruct Hop as [H1 V1]. destruct Hrun as [H2 V2].
    split; [apply (moved_trans _ m1); assumption|].
    simpl. intros H. apply andb_prop in H as [Ha Hb].
    rewrite (V2 Hb). apply V1. exact Ha.
Qed.

(** ** Streams as the operations leave them *)

Lemma create_steady {C} src (cb : metawrap_callback_t C) ctx :
  fresh src -> steady (i_stream_create_metawrap src cb ctx).
Proof.
  intros Hf. pose proof Hf as (Hpos & Hsz & Hwb).
  split; [exact Hsz|]. split; [exact Hwb|].
  split; [apply create_inv; exact Hsz|].
  intros _. apply create_heading. exact Hf.
Qed.

Lemma i_stream_read_stores_offset {C} (m : metawrap_istream C) r m' :
  in_metadata m = true ->
  i_stream_read m = Ret (r, m') ->
  start_offset m' = Src.v_offset (parent m').
Proof.
  intros Him Hrun. unfold i_stream_read in Hrun.
  destruct (i_stream_metawrap_read (set_stream_errno (set_eof m false) 0))
    as [[ret m1]| |] eqn:Hrd; cbn [bind] in Hrun; try discriminate.
  apply header_read_stores_offset in Hrd; [|exact Him].
  destruct ((ret =? -1) && negb (stream_errno m1 =? 0));
    injection Hrun as <- <-; exact Hrd.
Qed.

Lemma steady_read {C} (m : metawrap_istream C) r m' :
  steady m -> i_stream_read m = Ret (r, m') -> steady m'.
Proof.
  intros (Hsz & Hwb & Hinv & Hhead) Hrun.
  pose proof (i_stream_read_step _ _ _ Hinv Hrun)
    as ((Hinv' & _ & _ & Hcont & Hstat) & _).
  pose proof (i_stream_read_moved _ _ _ Hrun)
    as ((_ & _ & _ & Hshr & _ & Hback & _) & Hv & Hwin).
  assert (Hwb' : well_behaved (parent m')).
  { apply (well_behaved_suffix (parent m)); [assumption | apply Hstat |
      exact Hshr]. }
  split; [apply Hinv'|]. split; [exact Hwb'|]. split; [exact Hinv'|].
  intros Him'. destruct (Hback Him') as (Him & _).
  destruct (Hhead Him) as (_ & H0 & Hsk & Hps & _).
  destruct (Hwin Him') as (W1 & W2 & _).
  pose proof (i_stream_read_stores_offset _ _ _ Him Hrun) as Hso.
  unfold Src.v_offset in Hso.
  unfold heading. repeat split; try congruence; try apply Hinv'; try assumption.
  unfold wf. destruct Hinv' as ((_ & Hle) & _). lia.
Qed.

Lemma steady_skip {C} (m : metawrap_istream C) n :
  steady m -> steady (i_stream_skip m n).
Proof.
  intros (Hsz & Hwb & Hinv & Hhead).
  split; [exact Hsz|]. split; [exact Hwb|]. split; [exact Hinv|].
  intros Him. destruct (Hhead Him) as (_ & H0 & Hsk & Hps & Hso & Hrest).
  unfold heading, i_stream_skip. simpl. rewrite Hsk, Hps, H0. simpl.
  rewrite Nat.min_0_r. simpl.
  repeat split; try assumption; apply Hrest.
Qed.

Lemma steady_stat {C} (m : metawrap_istream C) exact r m' :
  steady m -> i_stream_metawrap_stat m exact = Ret (r, m') -> steady m'.
Proof.
  intros Hst Hrun. unfold i_stream_metawrap_stat, Src.i_stream_stat in Hrun.
  destruct (Src.st_size (parent m) exact) as [st|].
  2:{ injection Hrun as <- <-. exact Hst. }
  cbn [in_metadata set_statbuf_st_size] in Hrun.
  destruct (in_metadata m) eqn:Him.
  - destruct (i_stream_read (set_statbuf_st_size m st))
      as [[ret m1]| |] eqn:Hrd; cbn [bind] in Hrun; try discriminate.
    assert (H1 : steady m1).
    { apply (steady_read (set_statbuf_st_size m st) ret); [exact Hst|exact Hrd]. }
    destruct (ret <? 0); [injection Hrun as <- <-; exact H1|].
    destruct (ret =? 0); [injection Hrun as <- <-; exact H1|].
    destruct (u64 (statbuf_st_size m1) <? start_offset m1); [discriminate|].
    injection Hrun as <- <-. exact H1.
  - destruct (u64 _ <? _); [discriminate|].
    injection Hrun as <- <-. exact Hst.
Qed.

Lemma steady_op {C} o (m m' : metawrap_istream C) :
  steady m -> run_op o m = Ret m' -> steady m'.
Proof.
  intros Hst Hrun. destruct o as [|exact|n]; simpl in Hrun.
  - destruct (i_stream_read m) as [[ret m1]| |] eqn:Hrd;
      cbn [bind] in Hrun; try discriminate.
    injection Hrun as <-. apply (steady_read m ret); assumption.
  - destruct (i_stream_metawrap_stat m exact) as [[ret m1]| |] eqn:Hs;
      cbn [bind] in Hrun; try discriminate.
    injection Hrun as <-. apply (steady_stat m exact ret); assumption.
  - injection Hrun as <-. apply steady_skip. assumption.
Qed.

Lemma steady_ops {C} ops : forall (m m' : metawrap_istream C),
  steady m -> run_ops ops m = Ret m' -> steady m'.
Proof.
  induction ops as [|o ops IH]; intros m m' Hst Hrun; simpl in Hrun.
  - injection Hrun as <-. assumption.
  - destruct (run_op o m) as [m1| |] eqn:Hop; cbn [bind] in Hrun;
      try discriminate.
    apply (IH m1); [|assumption]. apply (steady_op o m); assumption.
Qed.

(** ** Every operation returns *)

Lemma steady_read_returns {C} (m : metawrap_istream C) :
  steady m -> exists r m', i_stream_read m = Ret (r, m').
Proof.
  intros (Hsz & Hwb & Hinv & Hhead).
  destruct (in_metadata m) eqn:Him.
  - pose proof (Hhead eq_refl) as Hh. rewrite (heading_read m Hh).
    destruct Hh as (_ & H0 & _).
    destruct (header_loop (header_fuel (parent m))
                (set_stream_errno (set_eof m false) 0))
      as [[ret mA]|site|] eqn:Hloop.
    + cbn [bind].
      apply header_loop_gen in Hloop as (G1 & _). simpl in G1.
      rewrite G1, H0. cbn [Z.eqb negb].
      destruct (ret <=? 0).
      * cbn [bind]. rewrite if_ret. eauto.
      * match goal with
        | |- context [i_stream_read_copy_from_parent ?x] =>
            destruct (i_stream_read_copy_from_parent x) as [r1 m1]
        end.
        cbn [bind]. rewrite if_ret. eauto.
    + exfalso. apply (header_loop_no_abort _ (set_stream_errno (set_eof m false) 0) _
                 Hwb Hloop).
    + exfalso. revert Hloop. apply header_loop_total.
      unfold header_fuel. simpl. lia.
  - unfold i_stream_read, i_stream_metawrap_read.
    cbn [in_metadata set_parent set_stream_errno set_eof]. rewrite Him.
    match goal with
    | |- context [i_stream_read_copy_from_parent ?x] =>
        destruct (i_stream_read_copy_from_parent x) as [r1 m1]
    end.
    cbn [bind]. rewrite if_ret. eauto.
Qed.

Lemma steady_stat_returns {C} (m : metawrap_istream C) exact :
  steady m -> honest (parent m) ->
  exists r m', i_stream_metawrap_stat m exact = Ret (r, m').
Proof.
  intros Hst Hhon. pose proof Hst as (Hsz & Hwb & Hinv & Hhead).
  unfold i_stream_metawrap_stat, Src.i_stream_stat.
  destruct (Src.st_size (parent m) exact) as [st|] eqn:Hsize; [|eauto].
  pose proof (Hhon _ _ Hsize) as Hrange.
  cbn [in_metadata set_statbuf_st_size].
  destruct (in_metadata m) eqn:Him.
  - destruct (steady_read_returns (set_statbuf_st_size m st) Hst)
      as (ret & m1 & Hrd).
    rewrite Hrd. cbn [bind].
    destruct (ret <? 0); [eauto|].
    destruct (ret =? 0); [eauto|].
    pose proof (i_stream_read_step (set_statbuf_st_size m st) ret m1 Hinv Hrd)
      as ((Hinv1 & _ & _ & Hcont & _) & Hsb).
    simpl in Hsb, Hcont. rewrite Hsb.
    rewrite (finish_safe m1 st Hinv1) by (rewrite Hcont; exact Hrange).
    eauto.
  - cbn [statbuf_st_size start_offset set_statbuf_st_size].
    rewrite (finish_safe m st Hinv Hrange). eauto.
Qed.

Lemma steady_op_returns {C} o (m : metawrap_istream C) :
  steady m -> honest (parent m) -> exists m', run_op o m = Ret m'.
Proof.
  intros Hst Hhon. destruct o as [|exact|n]; simpl.
  - destruct (steady_read_returns m Hst) as (r & m' & ->). cbn [bind]. eauto.
  - destruct (steady_stat_returns m exact Hst Hhon) as (r & m' & ->).
    cbn [bind]. eauto.
  - eauto.
Qed.

Lemma steady_ops_return {C} ops : forall (m : metawrap_istream C),
  steady m -> honest (parent m) -> exists m', run_ops ops m = Ret m'.
Proof.
  induction ops as [|o ops IH]; intros m Hst Hhon; simpl; [eauto|].
  destruct (steady_op_returns o m Hst Hhon) as (m1 & Hop).
  rewrite Hop. cbn [bind]. apply IH.
  - apply (steady_op o m); assumption.
  - apply run_op_moved in Hop as ((_ & Hcont & Hstat & _) & _).
    apply (honest_transfer (parent m)); assumption.
Qed.

(** ** Streams over a complete header *)

Lemma window_prefix p :
  wf p ->
  firstn (length (Src.unread p)) (skipn (Src.pos p) (Src.content p))
  = Src.unread p.
Proof.
  unfold wf, Src.unread, Src.content. intros Hwf.
  rewrite skipn_app.
  replace (Src.pos p - length (Src.buf p))%nat with 0%nat by lia.
  simpl. rewrite firstn_app, Nat.sub_diag. simpl.
  rewrite app_nil_r. apply firstn_all.
Qed.

Lemma shown_after_copy {C} (x : metawrap_istream C) :
  wf (parent x) ->
  start_offset x + v_offset x = Z.of_nat (Src.pos (parent x)) ->
  shown (snd (i_stream_read_copy_from_parent x)) (Src.pos (parent x)).
Proof.
  intros Hwf Hoff.
  pose proof (read_copy_gen x) as Hf. pose proof (read_copy_window x) as Hw.
  destruct (i_stream_read_copy_from_parent x) as [r m1]. simpl in *.
  unfold copy_frame in Hf.
  destruct Hf as (F1 & F2 & F3 & F4 & F5 & F6 & F7 & F8 & F9 & F10).
  destruct Hw as (W1 & W2 & W3 & W4 & W5 & W6).
  assert (Hwf1 : wf (parent m1)) by (unfold wf in *; lia).
  pose proof (window_prefix (parent m1) Hwf1) as Hp.
  unfold shown. rewrite W2, W3, W1, F1, F2, Nat.add_0_r.
  split; [lia|]. split; [exact Hoff|].
  split.
  - rewrite firstn_all, <- F10, Hp. reflexivity.
  - unfold Src.unread. rewrite length_skipn. unfold wf in Hwf1. lia.
Qed.

Lemma on_track_eof {C} (cb : metawrap_callback_t C) ctxH B (b : bool) m :
  on_track cb ctxH B m ->
  on_track cb ctxH B (if b then set_eof m true else m).
Proof. destruct b; intros H; exact H. Qed.

Lemma on_track_read {C} (cb : metawrap_callback_t C) ctxH B m r m' :
  steady m -> on_track cb ctxH B m ->
  i_stream_read m = Ret (r, m') ->
  on_track cb ctxH B m'.
Proof.
  intros (Hsz & Hwb & Hinv & Hhead) (Hcb & Hin & Hout) Hrun.
  destruct (in_metadata m) eqn:Him.
  - pose proof (Hhead eq_refl) as Hh. rewrite (heading_read m Hh) in Hrun.
    destruct Hh as (_ & H0 & Hsk & Hps & Hso & Hwf & _).
    specialize (Hin eq_refl).
    set (m0 := set_stream_errno (set_eof m false) 0) in *.
    destruct (header_loop_spec cb _ _ _ _ Hin (header_fuel (parent m)) m0)
      as (p' & Hcont & Hstat & Hsuf & Hwf' & Hcase);
      try assumption; try reflexivity.
    { simpl. rewrite rest_length. unfold header_fuel. lia. }
    simpl in Hcont.
    destruct Hcase as [(Hloop & Hrest) | (ctx1 & Hloop & Hparse & _)];
      rewrite Hloop in Hrun; cbn [bind] in Hrun;
      cbn [v_offset set_context set_parent set_stream_errno set_eof m0] in Hrun;
      rewrite H0 in Hrun; cbn [Z.eqb negb Z.leb Z.compare] in Hrun.
    + match type of Hrun with
      | context [i_stream_read_copy_from_parent ?x] =>
          set (mC := x) in *;
          pose proof (read_copy_gen mC) as Hf;
          pose proof (shown_after_copy mC) as Hshow
      end.
      destruct (i_stream_read_copy_from_parent mC) as [r1 m1].
      cbn [bind] in Hrun. rewrite if_ret in Hrun. injection Hrun as <- <-.
      apply on_track_eof.
      unfold copy_frame in Hf. simpl in Hf, Hshow.
      destruct Hf as (F1 & F2 & F3 & F4 & F5 & F6 & F7 & F8 & F9 & F10).
      unfold on_track.
      split; [congruence|]. split; [intros H; congruence|]. intros _.
      split; [exact F4|].
      split.
      { rewrite F2, F7, Hcont. unfold Src.v_offset.
        rewrite (pos_of_rest p' B Hwf' Hrest), Hcont. reflexivity. }
      split; [lia|].
      exists (Src.pos p'). apply Hshow; [exact Hwf'|].
      rewrite H0. unfold Src.v_offset. lia.
    + cbn [bind] in Hrun. rewrite if_ret in Hrun. injection Hrun as <- <-.
      unfold on_track. simpl.
      split; [exact Hcb|]. split; [intros _; exact Hparse|].
      intros H. congruence.
  - specialize (Hout eq_refl). destruct Hout as (Hctx & Hso & Hv & q0 & Hsh).
    destruct Hsh as (S1 & S2 & S3 & S4).
    unfold i_stream_read, i_stream_metawrap_read in Hrun.
    cbn [in_metadata set_parent set_stream_errno set_eof] in Hrun.
    rewrite Him in Hrun.
    cbn [start_offset v_offset parent set_parent set_stream_errno set_eof]
      in Hrun.
    match type of Hrun with
    | context [i_stream_read_copy_from_parent ?x] =>
        set (ms := x) in *;
        pose proof (read_copy_gen ms) as Hf;
        pose proof (shown_after_copy ms) as Hshow
    end.
    destruct (i_stream_read_copy_from_parent ms) as [r1 m1].
    cbn [bind] in Hrun. rewrite if_ret in Hrun. injection Hrun as <- <-.
    apply on_track_eof.
    unfold copy_frame in Hf. simpl in Hf, Hshow.
    destruct Hf as (F1 & F2 & F3 & F4 & F5 & F6 & F7 & F8 & F9 & F10).
    pose proof (buf_le_content (parent m)) as Hbc. unfold sized in Hsz.
    rewrite S2, u64_small, Nat2Z.id in Hshow, F10 by lia.
    rewrite content_seek in F7.
    unfold on_track.
    split; [congruence|]. split; [intros H; congruence|]. intros _.
    split; [congruence|]. split; [congruence|]. split; [lia|].
    exists (q0 + skip m)%nat.
    apply Hshow; [unfold wf; simpl; lia | reflexivity].
Qed.

Lemma on_track_skip {C} (cb : metawrap_callback_t C) ctxH B m n :
  on_track cb ctxH B m -> on_track cb ctxH B (i_stream_skip m n).
Proof.
  intros (Hcb & Hin & Hout). unfold on_track, i_stream_skip. simpl.
  split; [exact Hcb|]. split; [exact Hin|].
  intros Him. destruct (Hout Him) as (Hctx & Hso & Hv & q0 & S1 & S2 & S3 & S4).
  split; [exact Hctx|]. split; [exact Hso|]. split; [lia|].
  exists q0. unfold shown. simpl.
  split; [lia|]. split; [lia|]. split; assumption.
Qed.

Lemma on_track_stat {C} (cb : metawrap_callback_t C) ctxH B m exact r m' :
  steady m -> on_track cb ctxH B m ->
  i_stream_metawrap_stat m exact = Ret (r, m') ->
  on_track cb ctxH B m'.
Proof.
  intros Hst Htr Hrun. unfold i_stream_metawrap_stat, Src.i_stream_stat in Hrun.
  destruct (Src.st_size (parent m) exact) as [st|].
  2:{ injection Hrun as <- <-. exact Htr. }
  cbn [in_metadata set_statbuf_st_size] in Hrun.
  destruct (in_metadata m) eqn:Him.
  - destruct (i_stream_read (set_statbuf_st_size m st))
      as [[ret m1]| |] eqn:Hrd; cbn [bind] in Hrun; try discriminate.
    assert (H1 : on_track cb ctxH B m1).
    { apply (on_track_read cb ctxH B (set_statbuf_st_size m st) ret);
        [exact Hst | exact Htr | exact Hrd]. }
    destruct (ret <? 0); [injection Hrun as <- <-; exact H1|].
    destruct (ret =? 0); [injection Hrun as <- <-; exact H1|].
    destruct (u64 (statbuf_st_size m1) <? start_offset m1); [discriminate|].
    injection Hrun as <- <-. exact H1.
  - destruct (u64 _ <? _); [discriminate|].
    injection Hrun as <- <-. exact Htr.
Qed.

Lemma on_track_ops {C} (cb : metawrap_callback_t C) ctxH B ops :
  forall m m',
    steady m -> on_track cb ctxH B m ->
    run_ops ops m = Ret m' ->
    steady m' /\ on_track cb ctxH B m'.
Proof.
  induction ops as [|o ops IH]; intros m m' Hst Htr Hrun; simpl in Hrun.
  - injection Hrun as <-. split; assumption.
  - destruct (run_op o m) as [m1| |] eqn:Hop; cbn [bind] in Hrun;
      try discriminate.
    apply (IH m1); [apply (steady_op o m); assumption | | assumption].
    destruct o as [|exact|n]; simpl in Hop.
    + destruct (i_stream_read m) as [[ret m2]| |] eqn:Hrd;
        cbn [bind] in Hop; try discriminate.
      injection Hop as <-. apply (on_track_read cb ctxH B m ret); assumption.
    + destruct (i_stream_metawrap_stat m exact) as [[ret m2]| |] eqn:Hs;
        cbn [bind] in Hop; try discriminate.
      injection Hop as <-.
      apply (on_track_stat cb ctxH B m exact ret); assumption.
    + injection Hop as <-. apply on_track_skip. assumption.
Qed.

Lemma create_on_track {C} src (cb : metawrap_callback_t C) ctx h B :
  fresh src ->
  Src.content src = header_block h ++ B ->
  valid_header h = true ->
  on_track cb (feed cb h ctx) B (i_stream_create_metawrap src cb ctx).
Proof.
  intros Hf Hc Hv. unfold on_track.
  split; [reflexivity|]. split; [|discriminate].
  intros _. rewrite (create_rest src cb ctx Hf), Hc.
  apply parses_complete. exact Hv.
Qed.

(** ** A read that answers 0 *)



(** ** Reading to the end, as a sequence of operations *)

Lemma read_all_as_ops {C} fuel : forall (m : metawrap_istream C) acc out ret m',
  read_all fuel m acc = Ret (out, (ret, m')) ->
  exists ops, run_ops ops m = Ret m'.
Proof.
  induction fuel as [|fuel IH]; intros m acc out ret m' Hrun; [discriminate|].
  simpl in Hrun.
  destruct (i_stream_read m) as [[r1 m1]| |] eqn:Hrd; cbn [bind] in Hrun;
    try discriminate.
  destruct (r1 <? 0).
  - injection Hrun as _ _ <-. exists [OpRead]. simpl. rewrite Hrd. reflexivity.
  - apply IH in Hrun as [ops Hops].
    exists (OpRead :: OpSkip (length (i_stream_get_data m1)) :: ops).
    simpl. rewrite Hrd. cbn [bind]. exact Hops.
Qed.

(** ** From its creation on, every operation returns *)

(** X1: on a stream created over an unread source that is honest about
    its size and, when blocking, never answers "nothing yet", every
    sequence of reads, stats and skips returns: none of the three
    assertions of the file fires and the header loop ends. *)
Theorem X1_operations_return {C} src (cb : metawrap_callback_t C) ctx ops :
  fresh src -> honest src ->
  exists m', run_ops ops (i_stream_create_metawrap src cb ctx) = Ret m'.
Proof.
  intros Hf Hh.
  apply steady_ops_return; [apply create_steady; exact Hf | exact Hh].
Qed.

Lemma X1_operations_return_witness :
  exists m',
    run_ops [OpStat true; OpRead; OpSkip 1; OpStat false; OpRead; OpRead]
      (i_stream_create_metawrap
         (nb_source (txt "a:b" ++ [LF]) [[]; LF :: txt "XY"] 0)
         record_call [])
    = Ret m'.
Proof.
  apply X1_operations_return.
  - fresh_source.
  - intros exact sz H. injection H as <-. split; zcmp.
Defined.

(** ** The stream in its header *)

(** X2: as long as the stream is in its header, whatever reads, stats
    and skips it has gone through, it shows no byte, its logical offset
    is 0 (what the assertion of the read handler checks) and
    [start_offset] is the parent's offset, where the next read takes up
    the header. *)
Theorem X2_header_shows_nothing {C} src (cb : metawrap_callback_t C) ctx ops m :
  fresh src ->
  run_ops ops (i_stream_create_metawrap src cb ctx) = Ret m ->
  in_metadata m = true ->
  v_offset m = 0 /\
  i_stream_get_data m = [] /\
  start_offset m = Src.v_offset (parent m).
Proof.
  intros Hf Hrun Him.
  pose proof (steady_ops ops _ _ (create_steady src cb ctx Hf) Hrun)
    as (_ & _ & _ & Hhead).
  destruct (Hhead Him) as (_ & H0 & Hsk & Hps & Hso & _).
  split; [exact H0|]. split; [|exact Hso].
  unfold i_stream_get_data. rewrite Hsk, Hps. reflexivity.
Qed.

Lemma X2_header_shows_nothing_witness :
  let src := nb_source (txt "a:b" ++ LF :: txt "c") [[]; txt ":d" ++ [LF]; []]
                       0 in
  let m0 := i_stream_create_metawrap src record_call [] in
  let m := final (run_ops [OpRead; OpSkip 3; OpStat true; OpRead] m0) m0 in
  v_offset m = 0 /\
  i_stream_get_data m = [] /\
  start_offset m = Src.v_offset (parent m).
Proof.
  intros src m0 m.
  apply (X2_header_shows_nothing src record_call []
           [OpRead; OpSkip 3; OpStat true; OpRead] m).
  - fresh_source.
  - vm_compute. reflexivity.
  - vm_compute. reflexivity.
Defined.

(** ** The stream past its header *)

(** X3: once [in_metadata] is clear, no read, stat or skip calls the
    callback again: the context stays as the header left it. *)
Theorem X3_callback_only_in_header {C} (m m' : metawrap_istream C) ops :
  in_metadata m = false ->
  run_ops ops m = Ret m' ->
  context m' = context m /\ callback m' = callback m.
Proof.
  intros Him Hrun.
  apply run_ops_moved in Hrun as ((K & _ & _ & _ & Hout & _) & _).
  destruct (Hout Him) as (_ & Hctx & _). split; [exact Hctx | apply K].
Qed.

Lemma X3_callback_only_in_header_witness :
  let m0 := i_stream_create_metawrap
              (nb_source (txt "a:b" ++ [LF; LF] ++ txt "k:v" ++ [LF])
                         [txt "x:y" ++ [LF]; []; [LF]] 0)
              record_call [] in
  let m := final (run_ops [OpRead] m0) m0 in
  let m' := final (run_ops [OpSkip 2; OpRead; OpStat true; OpRead; OpRead] m)
                  m in
  context m' = context m /\ callback m' = callback m.
Proof.
  intros m0 m m'.
  apply (X3_callback_only_in_header m m'
           [OpSkip 2; OpRead; OpStat true; OpRead; OpRead]).
  - vm_compute. reflexivity.
  - vm_compute. reflexivity.
Defined.

(** X4: [abs_start_offset] is moved once, by the step that leaves the
    header, and by [start_offset]: over any sequence of operations
    started in the header it keeps its value while [in_metadata] is set
    and is that value plus [start_offset] from then on. *)
Theorem X4_abs_start_offset_once {C} (m m' : metawrap_istream C) ops :
  in_metadata m = true ->
  run_ops ops m = Ret m' ->
  abs_start_offset m'
  = if in_metadata m' then abs_start_offset m
    else u64 (abs_start_offset m + start_offset m').
Proof.
  intros Him Hrun.
  apply run_ops_moved in Hrun as ((_ & _ & _ & _ & _ & Hin & Hstep) & _).
  destruct (in_metadata m') eqn:E.
  - apply Hin. reflexivity.
  - apply Hstep; [exact Him | reflexivity].
Qed.

Lemma X4_abs_start_offset_once_witness :
  let m0 := i_stream_create_metawrap
              (nb_source (txt "a:b" ++ [LF]) [[]; LF :: txt "XY"; txt "Z"] 0)
              record_call [] in
  let m1 := final (run_ops [OpRead; OpStat false] m0) m0 in
  let m2 := final (run_ops [OpRead; OpStat false; OpRead; OpSkip 2; OpRead;
                            OpStat true] m0) m0 in
  (abs_start_offset m1
   = if in_metadata m1 then abs_start_offset m0
     else u64 (abs_start_offset m0 + start_offset m1)) /\
  (abs_start_offset m2
   = if in_metadata m2 then abs_start_offset m0
     else u64 (abs_start_offset m0 + start_offset m2)).
Proof.
  intros m0 m1 m2. split.
  - apply (X4_abs_start_offset_once m0 m1 [OpRead; OpStat false]).
    + reflexivity.
    + vm_compute. reflexivity.
  - apply (X4_abs_start_offset_once m0 m2
             [OpRead; OpStat false; OpRead; OpSkip 2; OpRead; OpStat true]).
    + reflexivity.
    + vm_compute. reflexivity.
Defined.

(** X5: over a content made of a valid header block and a payload [B],
    after any sequence of reads, stats and skips the bytes the stream
    shows are bytes of [B], and they start at the logical offset
    [v_offset]: offset 0 of the stream is the first byte of the
    payload, whatever the length of the header. *)
Theorem X5_offset_translation {C} src (cb : metawrap_callback_t C) ctx h B
    ops m :
  fresh src ->
  Src.content src = header_block h ++ B ->
  valid_header h = true ->
  run_ops ops (i_stream_create_metawrap src cb ctx) = Ret m ->
  0 <= v_offset m /\
  exists n,
    i_stream_get_data m = firstn n (skipn (Z.to_nat (v_offset m)) B) /\
    (Z.to_nat (v_offset m) + n <= length B)%nat.
Proof.
  intros Hf Hc Hv Hrun.
  destruct (on_track_ops cb (feed cb h ctx) B ops _ m
              (create_steady src cb ctx Hf)
              (create_on_track src cb ctx h B Hf Hc Hv) Hrun)
    as [(_ & _ & _ & Hhead) (_ & _ & Hout)].
  pose proof (run_ops_moved ops _ _ Hrun) as ((_ & Hcont & _) & _).
  simpl in Hcont. rewrite Hc in Hcont.
  destruct (in_metadata m) eqn:Him.
  - destruct (Hhead eq_refl) as (_ & H0 & Hsk & Hps & _).
    rewrite H0. split; [lia|]. exists 0%nat.
    unfold i_stream_get_data. rewrite Hsk, Hps. simpl. split; [reflexivity|lia].
  - destruct (Hout eq_refl) as (_ & Hso & Hv0 & q0 & S1 & S2 & S3 & S4).
    split; [exact Hv0|]. exists (pos m - skip m)%nat.
    pose proof (buf_le_content (parent m)) as Hbc.
    rewrite Hcont in Hso, S3, Hbc. rewrite length_app in Hso, Hbc.
    assert (Hq : (skip m + q0 = length (header_block h)
                                + Z.to_nat (v_offset m))%nat) by lia.
    split; [|lia].
    unfold i_stream_get_data.
    rewrite S3, skipn_firstn_comm, skipn_skipn, Hq, skipn_app.
    rewrite skipn_all2 by lia. simpl.
    replace (length (header_block h) + Z.to_nat (v_offset m)
             - length (header_block h))%nat
      with (Z.to_nat (v_offset m)) by lia.
    reflexivity.
Qed.

Lemma X5_offset_translation_witness :
  let src := nb_source (txt "from:x" ++ [LF])
                       [LF :: txt "PAY"; []; txt "LOAD"] 0 in
  let m0 := i_stream_create_metawrap src record_call [] in
  let m := final (run_ops [OpStat true; OpSkip 2; OpRead; OpRead] m0) m0 in
  0 <= v_offset m /\
  exists n,
    i_stream_get_data m = firstn n (skipn (Z.to_nat (v_offset m)) (txt "PAYLOAD"))
    /\ (Z.to_nat (v_offset m) + n <= length (txt "PAYLOAD"))%nat.
Proof.
  intros src m0 m.
  apply (X5_offset_translation src record_call [] [(txt "from", txt "x")]
           (txt "PAYLOAD") [OpStat true; OpSkip 2; OpRead; OpRead] m).
  - fresh_source.
  - reflexivity.
  - reflexivity.
  - vm_compute. reflexivity.
Defined.

(** X6: over a content made of a valid header block and a payload,
    whichever operations took the stream out of its header (a read, or
    the read a stat forces), once [in_metadata] is clear the callback
    has been called for the pairs of the header, in order and once
    each, and [start_offset] is the length of the header block, its
    empty line included. *)
Theorem X6_header_done_by_any_operation {C} src (cb : metawrap_callback_t C)
    ctx h B ops m :
  fresh src ->
  Src.content src = header_block h ++ B ->
  valid_header h = true ->
  run_ops ops (i_stream_create_metawrap src cb ctx) = Ret m ->
  in_metadata m = false ->
  context m = feed cb h ctx /\
  start_offset m = Z.of_nat (length (header_block h)).
Proof.
  intros Hf Hc Hv Hrun Him.
  destruct (on_track_ops cb (feed cb h ctx) B ops _ m
              (create_steady src cb ctx Hf)
              (create_on_track src cb ctx h B Hf Hc Hv) Hrun)
    as [_ (_ & _ & Hout)].
  pose proof (run_ops_moved ops _ _ Hrun) as ((_ & Hcont & _) & _).
  simpl in Hcont. rewrite Hc in Hcont.
  destruct (Hout Him) as (Hctx & Hso & _).
  split; [exact Hctx|].
  rewrite Hso, Hcont, length_app. f_equal. lia.
Qed.

Lemma X6_header_done_by_any_operation_witness :
  let src := nb_source (txt "from:x" ++ LF :: txt "to")
                       [[]; txt ":y:z" ++ [LF; LF] ++ txt "PAY"; txt "LOAD"] 0 in
  let m0 := i_stream_create_metawrap src record_call [] in
  let m := final (run_ops [OpStat true; OpSkip 1; OpStat false] m0) m0 in
  context m = [(txt "from", txt "x"); (txt "to", txt "y:z")] /\
  start_offset m = 15.
Proof.
  intros src m0 m.
  apply (X6_header_done_by_any_operation src record_call []
           [(txt "from", txt "x"); (txt "to", txt "y:z")]
           (txt "PAYLOAD") [OpStat true; OpSkip 1; OpStat false] m).
  - fresh_source.
  - reflexivity.
  - reflexivity.
  - vm_compute. reflexivity.
  - vm_compute. reflexivity.
Defined.

(** X7: over a content made of a valid header block and a payload, once
    the stream is past its header a stat that finds the parent's size
    [sz] answers 0 and reports [sz] minus the length of the header
    block, however far the caller has read. *)
Theorem X7_stat_past_header {C} src (cb : metawrap_callback_t C) ctx h B
    ops m exact sz :
  fresh src ->
  Src.content src = header_block h ++ B ->
  valid_header h = true ->
  run_ops ops (i_stream_create_metawrap src cb ctx) = Ret m ->
  in_metadata m = false ->
  Src.st_size src exact = Some sz ->
  Z.of_nat (length (header_block h)) <= sz < 2 ^ 63 ->
  exists m',
    i_stream_metawrap_stat m exact = Ret (0, m') /\
    statbuf_st_size m' = sz - Z.of_nat (length (header_block h)).
Proof.
  intros Hf Hc Hv Hrun Him Hsize Hrange.
  destruct (on_track_ops cb (feed cb h ctx) B ops _ m
              (create_steady src cb ctx Hf)
              (create_on_track src cb ctx h B Hf Hc Hv) Hrun)
    as [_ (_ & _ & Hout)].
  pose proof (run_ops_moved ops _ _ Hrun)
    as ((_ & Hcont & (_ & Hst & _) & _) & _).
  simpl in Hcont, Hst. rewrite Hc in Hcont.
  destruct (Hout Him) as (_ & Hso & _).
  rewrite Hcont, length_app in Hso.
  replace (length (header_block h) + length B - length B)%nat
    with (length (header_block h)) in Hso by lia.
  unfold i_stream_metawrap_stat, Src.i_stream_stat.
  rewrite Hst, Hsize.
  cbn [in_metadata set_statbuf_st_size statbuf_st_size start_offset].
  rewrite Him, Hso, u64_small by lia.
  replace (sz <? Z.of_nat (length (header_block h))) with false
    by (symmetry; apply Z.ltb_ge; lia).
  eexists. split; [reflexivity|]. simpl. apply s64_small. lia.
Qed.

Lemma X7_stat_past_header_witness :
  let src := nb_source (txt "from:x" ++ [LF])
                       [LF :: txt "PAY"; []; txt "LOAD"] 0 in
  let m0 := i_stream_create_metawrap src record_call [] in
  let m := final (run_ops [OpRead; OpSkip 2; OpRead; OpRead] m0) m0 in
  exists m',
    i_stream_metawrap_stat m true = Ret (0, m') /\
    statbuf_st_size m'
    = 15 - Z.of_nat (length (header_block [(txt "from", txt "x")])).
Proof.
  intros src m0 m.
  apply (X7_stat_past_header src record_call [] [(txt "from", txt "x")]
           (txt "PAYLOAD") [OpRead; OpSkip 2; OpRead; OpRead] m true 15).
  - fresh_source.
  - reflexivity.
  - reflexivity.
  - vm_compute. reflexivity.
  - vm_compute. reflexivity.
  - reflexivity.
  - split; zcmp.
Defined.

(** ** Reading on after a line without colon *)

(** X8: the read that meets a line without colon fails with [EINVAL]
    and leaves the stream in its header, positioned after that line:
    reading on takes up the header at the next line.  When a valid header
    block follows the bad line, the second reading to the end calls the
    callback for its pairs and delivers the payload after it. *)
Theorem X8_read_after_format_error {C} (cb : metawrap_callback_t C) ctx src
    h bad h2 B fuel fuel' :
  fresh src ->
  Src.content src = header_lines h ++ bad ++ LF :: header_block h2 ++ B ->
  valid_header h = true ->
  no_byte LF bad = true -> no_byte COLON bad = true ->
  cstr_empty bad = false ->
  valid_header h2 = true ->
  (length (Src.pending src) + 1 < fuel)%nat ->
  (length (Src.pending src) + 1 < fuel')%nat ->
  exists m1 m2,
    read_all fuel (i_stream_create_metawrap src cb ctx) [] = Ret ([], (-1, m1)) /\
    stream_errno m1 = EINVAL /\
    context m1 = feed cb h ctx /\
    read_all fuel' m1 [] = Ret (B, (-1, m2)) /\
    context m2 = feed cb (h ++ h2) ctx /\
    in_metadata m2 = false.
Proof.
  intros Hf Hc Hv Hlf Hcol Hne Hv2 Hfuel Hfuel'.
  set (after := header_block h2 ++ B) in *.
  destruct (read_created src cb ctx (feed cb h ctx) (HFormat after) fuel Hf)
    as (m1 & Hctx & Hrun & Him & Hso & Hvo & Herr); [|assumption|].
  { rewrite Hc. apply parses_format; assumption. }
  destruct (read_all_as_ops _ _ _ _ _ _ Hrun) as [ops Hops].
  pose proof (steady_ops ops _ _ (create_steady src cb ctx Hf) Hops)
    as (_ & _ & _ & Hhead).
  pose proof (run_ops_moved ops _ _ Hops)
    as (((_ & _ & _ & _ & Hcb) & Hcont & _ & Hshr & _) & _).
  specialize (Hhead Him). simpl in Hcb, Hcont, Hshr, Hso.
  assert (Hrest : rest (parent m1) = after).
  { destruct Hhead as (_ & _ & _ & _ & Hso' & _).
    unfold rest. rewrite Hcont.
    replace (Src.pos (parent m1))
      with (length (Src.content src) - length after)%nat by lia.
    rewrite Hc.
    replace (header_lines h ++ bad ++ LF :: after)
      with ((header_lines h ++ bad ++ [LF]) ++ after)
      by (rewrite <- !app_assoc; reflexivity).
    rewrite length_app, Nat.add_sub, skipn_app, skipn_all, Nat.sub_diag.
    reflexivity. }
  destruct (read_all_spec fuel' m1 [] (feed cb (h ++ h2) ctx) (HComplete B)
              Hhead)
    as (m2 & Hctx2 & Hrun2 & Him2 & _).
  { rewrite Hcb, Hrest, Hctx. unfold feed. rewrite fold_left_app.
    apply parses_complete. exact Hv2. }
  { destruct Hshr as [pre Hpre]. apply suffix_shorter in Hpre. lia. }
  exists m1, m2. repeat split; assumption.
Qed.

Lemma X8_read_after_format_error_witness :
  exists m1 m2,
    read_all 6
      (i_stream_create_metawrap
         (nb_source (txt "a:b" ++ LF :: txt "bad")
                    [[]; LF :: txt "k:v" ++ [LF]; [LF]; txt "DATA"] 0)
         record_call []) []
    = Ret ([], (-1, m1)) /\
    stream_errno m1 = EINVAL /\
    context m1 = feed record_call [(txt "a", txt "b")] [] /\
    read_all 6 m1 [] = Ret (txt "DATA", (-1, m2)) /\
    context m2
    = feed record_call ([(txt "a", txt "b")] ++ [(txt "k", txt "v")]) [] /\
    in_metadata m2 = false.
Proof.
  apply (X8_read_after_format_error record_call [] _ [(txt "a", txt "b")]
           (txt "bad") [(txt "k", txt "v")] (txt "DATA") 6 6).
  - fresh_source.
  - reflexivity.
  - reflexivity.
  - reflexivity.
  - reflexivity.
  - reflexivity.
  - reflexivity.
  - simpl. lia.
  - simpl. lia.
Defined.

(** ** Lines with a NUL byte *)

Lemma cstr_app_nul a b : no_byte NUL a = true -> cstr (a ++ NUL :: b) = a.
Proof.
  induction a as [|x a IH]; simpl; intros H; [reflexivity|].
  apply andb_prop in H as [Hx Ha].
  destruct (Ascii.eqb x NUL); [discriminate|].
  rewrite IH by assumption. reflexivity.
Qed.

(** X9: a header line whose first byte is NUL is an empty C string and
    ends the header as the empty line does: the callback is not called
    for it, and the bytes after its line feed are the payload. *)
Theorem X9_nul_line_ends_header {C} (cb : metawrap_callback_t C) ctx src h
    junk B fuel :
  fresh src ->
  Src.content src = header_lines h ++ (NUL :: junk) ++ LF :: B ->
  valid_header h = true ->
  no_byte LF junk = true ->
  (length (Src.pending src) + 1 < fuel)%nat ->
  exists m',
    read_all fuel (i_stream_create_metawrap src cb ctx) [] = Ret (B, (-1, m')) /\
    context m' = feed cb h ctx /\
    in_metadata m' = false.
Proof.
  intros Hf Hc Hv Hlf Hfuel.
  destruct (read_created src cb ctx (feed cb h ctx) (HComplete B) fuel Hf)
    as (m' & Hctx & Hrun & Him & _); [|assumption|].
  - rewrite Hc. apply parses_lines; [assumption|].
    apply (parses_blank cb _ _ (NUL :: junk) B); [|reflexivity].
    apply split_at_here. simpl. exact Hlf.
  - exists m'. auto.
Qed.

Lemma X9_nul_line_ends_header_witness :
  exists m',
    read_all 5
      (i_stream_create_metawrap
         (mem_source (txt "a:b" ++ LF :: NUL :: txt "c:d" ++ LF :: txt "e:f"
                      ++ [LF]))
         record_call []) []
    = Ret (txt "e:f" ++ [LF], (-1, m')) /\
    context m' = [(txt "a", txt "b")] /\
    in_metadata m' = false.
Proof.
  apply (X9_nul_line_ends_header record_call [] _ [(txt "a", txt "b")]
           (txt "c:d") (txt "e:f" ++ [LF]) 5).
  - fresh_source.
  - reflexivity.
  - reflexivity.
  - reflexivity.
  - simpl. lia.
Defined.

(** X10: key and value are C strings: the value the callback gets ends
    at the first NUL byte of the line, and the bytes from that NUL to
    the line feed reach neither the callback nor the payload. *)
Theorem X10_value_ends_at_nul {C} (cb : metawrap_callback_t C) ctx src h
    k v junk B fuel :
  fresh src ->
  Src.content src
  = header_lines h ++ (k ++ COLON :: v ++ NUL :: junk) ++ LF :: LF :: B ->
  valid_header h = true ->
  valid_entry (k, v) = true ->
  no_byte LF junk = true ->
  (length (Src.pending src) + 1 < fuel)%nat ->
  exists m',
    read_all fuel (i_stream_create_metawrap src cb ctx) [] = Ret (B, (-1, m')) /\
    context m' = cb k v (feed cb h ctx) /\
    in_metadata m' = false.
Proof.
  intros Hf Hc Hv Hkv Hlf Hfuel.
  destruct (valid_entry_line (k, v) Hkv) as (Hline & Hne & Hcut).
  simpl in Hline, Hne, Hcut.
  pose proof Hkv as Hnul. unfold valid_entry in Hnul. simpl in Hnul.
  repeat (apply andb_prop in Hnul as [Hnul ?]).
  assert (Htext : no_byte NUL (k ++ COLON :: v) = true).
  { rewrite no_byte_app. simpl.
    repeat (apply andb_true_intro; split); auto. }
  set (line := k ++ COLON :: v ++ NUL :: junk).
  assert (Hcstr : cstr line = k ++ COLON :: v).
  { unfold line.
    replace (k ++ COLON :: v ++ NUL :: junk)
      with ((k ++ COLON :: v) ++ NUL :: junk)
      by (rewrite <- app_assoc; reflexivity).
    apply cstr_app_nul. exact Htext. }
  destruct (read_created src cb ctx (cb k v (feed cb h ctx)) (HComplete B)
              fuel Hf)
    as (m' & Hctx & Hrun & Him & _); [|assumption|].
  - rewrite Hc. apply parses_lines; [assumption|].
    apply (parses_pair cb _ _ line (LF :: B) k v).
    + apply split_at_here. unfold line.
      replace (k ++ COLON :: v ++ NUL :: junk)
        with ((k ++ COLON :: v) ++ NUL :: junk)
        by (rewrite <- app_assoc; reflexivity).
      rewrite no_byte_app, Hline. simpl. exact Hlf.
    + unfold line. destruct k as [|x k']; simpl in *; [reflexivity|exact Hne].
    + unfold strchr_cut in *. rewrite Hcstr.
      rewrite cstr_text in Hcut by exact Htext. exact Hcut.
    + apply (parses_blank cb _ _ [] B); reflexivity.
  - exists m'. auto.
Qed.

Lemma X10_value_ends_at_nul_witness :
  exists m',
    read_all 5
      (i_stream_create_metawrap
         (mem_source (txt "a:b" ++ LF :: txt "k:v:w" ++ NUL :: txt "x:y" ++ LF
                      :: LF :: txt "DATA"))
         record_call []) []
    = Ret (txt "DATA", (-1, m')) /\
    context m' = record_call (txt "k") (txt "v:w") [(txt "a", txt "b")] /\
    in_metadata m' = false.
Proof.
  apply (X10_value_ends_at_nul record_call [] _ [(txt "a", txt "b")]
           (txt "k") (txt "v:w") (txt "x:y") (txt "DATA") 5).
  - fresh_source.
  - reflexivity.
  - reflexivity.
  - reflexivity.
  - reflexivity.
  - simpl. lia.
Defined.

(** X11: [strchr] stops at the first NUL byte of the line: a line whose
    only colons come after a NUL byte is a line without colon, and the
    read fails with [EINVAL] as for any such line. *)
Theorem X11_colon_after_nul {C} (cb : metawrap_callback_t C) ctx src h
    x y after fuel :
  fresh src ->
  Src.content src = header_lines h ++ (x ++ NUL :: y) ++ LF :: after ->
  valid_header h = true ->
  no_byte LF x = true -> no_byte COLON x = true -> cstr_empty x = false ->
  no_byte NUL x = true ->
  no_byte LF y = true ->
  (length (Src.pending src) + 1 < fuel)%nat ->
  exists m',
    read_all fuel (i_stream_create_metawrap src cb ctx) [] = Ret ([], (-1, m')) /\
    stream_errno m' = EINVAL /\
    context m' = feed cb h ctx /\
    in_metadata m' = true.
Proof.
  intros Hf Hc Hv Hlf Hcol Hne Hnul Hlfy Hfuel.
  destruct (read_created src cb ctx (feed cb h ctx) (HFormat after) fuel Hf)
    as (m' & Hctx & Hrun & Him & _ & _ & Herr); [|assumption|].
  - rewrite Hc. apply parses_lines; [assumption|].
    apply (parses_bad cb _ _ (x ++ NUL :: y) after).
    + apply split_at_here. rewrite no_byte_app, Hlf. simpl. exact Hlfy.
    + destruct x; [discriminate Hne | exact Hne].
    + unfold strchr_cut. rewrite cstr_app_nul by exact Hnul.
      apply split_at_absent. exact Hcol.
  - exists m'. auto.
Qed.

Lemma X11_colon_after_nul_witness :
  exists m',
    read_all 5
      (i_stream_create_metawrap
         (mem_source (txt "a:b" ++ LF :: txt "key" ++ NUL :: txt ":value" ++ LF
                      :: LF :: txt "DATA"))
         record_call []) []
    = Ret ([], (-1, m')) /\
    stream_errno m' = EINVAL /\
    context m' = feed record_call [(txt "a", txt "b")] [] /\
    in_metadata m' = true.
Proof.
  apply (X11_colon_after_nul record_call [] _ [(txt "a", txt "b")]
           (txt "key") (txt ":value") (LF :: txt "DATA") 5).
  - fresh_source.
  - reflexivity.
  - reflexivity.
  - reflexivity.
  - reflexivity.
  - reflexivity.
  - reflexivity.
  - reflexivity.
  - simpl. lia.
Defined.

(** ** What the constructor sets and the handlers leave alone *)

(** X12: the stream is created non-seekable, with the blocking mode, the
    readable-descriptor mark and the buffer bound of its input, and no
    sequence of reads, stats and skips changes any of them, nor the
    callback, nor the blocking mode of the parent. *)
Theorem X12_constructor_fields_kept {C} src (cb : metawrap_callback_t C) ctx
    ops m :
  run_ops ops (i_stream_create_metawrap src cb ctx) = Ret m ->
  seekable m = false /\
  blocking m = Src.blocking src /\
  readable_fd m = Src.readable_fd src /\
  max_buffer_size m = Src.max_buffer_size src /\
  callback m = cb /\
  Src.blocking (parent m) = Src.blocking src.
Proof.
  intros Hrun.
  apply run_ops_moved in Hrun
    as (((K1 & K2 & K3 & K4 & K5) & _ & (_ & _ & Hbl) & _) & _).
  simpl in *. repeat split; assumption.
Qed.

Lemma X12_constructor_fields_kept_witness :
  let src := nb_source (txt "a:b" ++ [LF]) [[]; LF :: txt "XY"] 0 in
  let m0 := i_stream_create_metawrap src record_call [] in
  let m := final (run_ops [OpStat true; OpRead; OpSkip 1; OpRead] m0) m0 in
  seekable m = false /\
  blocking m = Src.blocking src /\
  readable_fd m = Src.readable_fd src /\
  max_buffer_size m = Src.max_buffer_size src /\
  callback m = record_call /\
  Src.blocking (parent m) = Src.blocking src.
Proof.
  intros src m0 m.
  apply (X12_constructor_fields_kept src record_call []
           [OpStat true; OpRead; OpSkip 1; OpRead] m).
  vm_compute. reflexivity.
Defined.

(** X13: the handlers never move the logical offset: over any sequence
    of reads and stats, from any state, [v_offset] stays as it was; only
    the caller's skips move it. *)
Theorem X13_handlers_keep_offset {C} (m m' : metawrap_istream C) ops :
  forallb is_handler ops = true ->
  run_ops ops m = Ret m' ->
  v_offset m' = v_offset m.
Proof.
  intros Hops Hrun. apply run_ops_moved in Hrun as (_ & Hv). apply Hv, Hops.
Qed.

Lemma X13_handlers_keep_offset_witness :
  let m0 := i_stream_create_metawrap
              (nb_source (txt "a:b" ++ [LF; LF] ++ txt "XYZ") [txt "W"] 0)
              record_call [] in
  let m := final (run_ops [OpRead; OpSkip 2] m0) m0 in
  let m' := final (run_ops [OpStat true; OpRead; OpRead; OpStat false] m) m in
  v_offset m' = v_offset m.
Proof.
  intros m0 m m'.
  apply (X13_handlers_keep_offset m m'
           [OpStat true; OpRead; OpRead; OpStat false]).
  - reflexivity.
  - vm_compute. reflexivity.
Defined.

(** ** Stat on a stream nobody has read *)



(** ** A source that has nothing yet *)

Lemma buffered_line p line r n :
  split_at LF (Src.unread p) = Some (line, r) ->
  Src.read_next_line_loop n p
  = (Some line, Src.set_pos p (Src.pos p + length line + 1)).
Proof.
  intros H. destruct n; simpl; unfold Src.i_stream_next_line; rewrite H;
    reflexivity.
Qed.

(** The parent after a read that brought nothing. *)
Lemma starved_line p cs n :
  split_at LF (Src.unread p) = None ->
  Src.pending p = [] :: cs ->
  exists p',
    Src.read_next_line_loop n p = (None, p') /\
    Src.eof p' = false /\ Src.blocking p' = Src.blocking p /\
    Src.pending p' = cs /\ Src.pos p' = Src.pos p.
Proof.
  intros H Hp.
  destruct n; simpl; unfold Src.i_stream_next_line, Src.i_stream_read;
    rewrite H, Hp; simpl; eexists; repeat split.
Qed.

Lemma header_lines_length h : (length h <= length (header_lines h))%nat.
Proof.
  induction h as [|kv h IH]; simpl; [lia|].
  unfold header_line. rewrite !length_app. simpl. rewrite length_app. simpl.
  lia.
Qed.

Lemma header_loop_starved {C} h : forall fuel (m : metawrap_istream C) partial cs,
  (length h < fuel)%nat ->
  valid_header h = true ->
  Src.unread (parent m) = header_lines h ++ partial ->
  no_byte LF partial = true ->
  Src.pending (parent m) = [] :: cs ->
  Src.blocking (parent m) = false ->
  exists m',
    header_loop fuel m = Ret (0, m') /\
    context m' = feed (callback m) h (context m) /\
    Src.pending (parent m') = cs /\
    Src.pos (parent m') = (Src.pos (parent m) + length (header_lines h))%nat.
Proof.
  induction h as [|kv h IH]; intros fuel m partial cs Hfuel Hv Hun Hlf Hp Hbl;
    (destruct fuel as [|fuel]; [simpl in Hfuel; lia|]); simpl.
  - simpl in Hun. unfold Src.i_stream_read_next_line.
    destruct (starved_line (parent m) cs (length (Src.pending (parent m))))
      as (p' & -> & Heof & Hbl' & Hp' & Hpos'); [|assumption|].
    { rewrite Hun. apply split_at_absent. exact Hlf. }
    rewrite Heof, Hbl', Hbl. eexists. split; [reflexivity|]. simpl.
    repeat split; [assumption | lia].
  - simpl in Hv. apply andb_prop in Hv as [Hkv Hv].
    destruct (valid_entry_line kv Hkv) as (Hline & Hne & Hcut).
    simpl in Hun. rewrite <- app_assoc, header_line_split in Hun.
    unfold Src.i_stream_read_next_line.
    rewrite (buffered_line (parent m) (fst kv ++ COLON :: snd kv)
               (header_lines h ++ partial)).
    2:{ rewrite Hun. apply split_at_here. exact Hline. }
    rewrite Hne, Hcut.
    match goal with
    | |- context [header_loop fuel ?x] =>
        destruct (IH fuel x partial cs) as (m' & Hrun & Hctx & Hp' & Hpos')
    end; try assumption.
    + simpl in Hfuel. lia.
    + simpl. unfold Src.unread in *. simpl.
      rewrite <- Nat.add_assoc, Nat.add_comm, <- skipn_skipn, Hun.
      apply skipn_line.
    + exists m'. split; [exact Hrun|]. simpl in Hctx, Hpos'.
      split; [exact Hctx|]. split; [exact Hp'|].
      rewrite Hpos'. unfold header_line. rewrite !length_app. simpl.
      rewrite !length_app. simpl. lia.
Qed.

(** A read of a stream in its header whose parent holds complete lines
    and then has nothing yet. *)
Lemma starved_read {C} (m : metawrap_istream C) h partial cs :
  heading m ->
  valid_header h = true ->
  Src.unread (parent m) = header_lines h ++ partial ->
  no_byte LF partial = true ->
  Src.pending (parent m) = [] :: cs ->
  Src.blocking (parent m) = false ->
  exists m',
    i_stream_read m = Ret (0, m') /\
    context m' = feed (callback m) h (context m) /\
    in_metadata m' = true /\
    start_offset m'
    = Z.of_nat (Src.pos (parent m) + length (header_lines h)) /\
    i_stream_get_data m' = [] /\
    Src.pending (parent m') = cs /\
    statbuf_st_size m' = statbuf_st_size m.
Proof.
  intros Hh Hv Hun Hlf Hp Hbl.
  rewrite (heading_read m Hh).
  destruct Hh as (Him & H0 & Hsk & Hps & Hso & Hwf & Hsz & Hwb).
  destruct (header_loop_starved h (header_fuel (parent m))
              (set_stream_errno (set_eof m false) 0) partial cs)
    as (mA & Hloop & Hctx & Hp' & Hpos'); try assumption.
  { unfold header_fuel.
    pose proof (header_lines_length h) as Hl.
    pose proof (buf_le_content (parent m)) as Hbc.
    assert (length (Src.unread (parent m))
            = length (header_lines h ++ partial)) as Hlen by (f_equal; exact Hun).
    unfold Src.unread in Hlen. rewrite length_skipn, length_app in Hlen. lia. }
  rewrite Hloop. cbn [bind].
  pose proof (header_loop_statbuf _ _ _ _ Hloop) as Hsb.
  pose proof (header_loop_kept _ _ _ _ Hloop) as (_ & K1 & K2 & _).
  apply header_loop_gen in Hloop as (G1 & _ & G3 & _).
  simpl in G1, G3, Hsb, K1, K2, Hctx, Hpos'.
  rewrite G1, H0. cbn [Z.eqb negb Z.leb Z.compare bind].
  rewrite if_ret. eexists. split; [reflexivity|].
  cbn [Z.eqb andb]. simpl.
  repeat split; try congruence.
  - unfold Src.v_offset. rewrite Hpos'. reflexivity.
  - unfold i_stream_get_data. simpl. rewrite K1, K2, Hsk, Hps. reflexivity.
Qed.

(** X15: while the header is not complete, a read on a non-blocking
    source that has nothing more yet answers 0: the callback has been
    called for the complete lines that had arrived, in order, the bytes
    of an unfinished line are left for the next read, [start_offset]
    stands after the last complete line, and the stream stays in its
    header and shows nothing. *)
Theorem X15_would_block_read {C} src (cb : metawrap_callback_t C) ctx h
    partial cs :
  fresh src ->
  Src.blocking src = false ->
  Src.buf src = header_lines h ++ partial ->
  valid_header h = true ->
  no_byte LF partial = true ->
  Src.pending src = [] :: cs ->
  exists m',
    i_stream_read (i_stream_create_metawrap src cb ctx) = Ret (0, m') /\
    context m' = feed cb h ctx /\
    in_metadata m' = true /\
    start_offset m' = Z.of_nat (length (header_lines h)) /\
    i_stream_get_data m' = [] /\
    Src.pending (parent m') = cs.
Proof.
  intros Hf Hbl Hbuf Hv Hlf Hp.
  pose proof Hf as (Hpos & _).
  destruct (starved_read (i_stream_create_metawrap src cb ctx) h partial cs
              (create_heading src cb ctx Hf) Hv)
    as (m' & Hrun & Hctx & Him & Hso & Hdata & Hp' & _); try assumption.
  { unfold Src.unread. simpl. rewrite Hpos. exact Hbuf. }
  simpl in Hctx, Hso. rewrite Hpos in Hso.
  exists m'. repeat split; assumption.
Qed.

Lemma X15_would_block_read_witness :
  exists m',
    i_stream_read
      (i_stream_create_metawrap
         (nb_source (txt "a:b" ++ LF :: txt "c:d:e" ++ LF :: txt "f:")
                    [[]; txt "g" ++ [LF; LF] ++ txt "DATA"] 0)
         record_call [])
    = Ret (0, m') /\
    context m' = feed record_call [(txt "a", txt "b"); (txt "c", txt "d:e")] [] /\
    in_metadata m' = true /\
    start_offset m'
    = Z.of_nat (length (header_lines [(txt "a", txt "b");
                                      (txt "c", txt "d:e")])) /\
    i_stream_get_data m' = [] /\
    Src.pending (parent m') = [txt "g" ++ [LF; LF] ++ txt "DATA"].
Proof.
  apply (X15_would_block_read _ record_call []
           [(txt "a", txt "b"); (txt "c", txt "d:e")] (txt "f:")).
  - fresh_source.
  - reflexivity.
  - reflexivity.
  - reflexivity.
  - reflexivity.
  - reflexivity.
Defined.

(** X16: on a stream just created over a non-blocking source whose
    header is not complete among the bytes arrived and that has nothing
    more yet, a stat that finds the parent's size succeeds and reports
    the size as unknown (-1); the read it forced has called the callback
    for the complete lines and left the stream in its header. *)
Theorem X16_stat_size_unknown {C} src (cb : metawrap_callback_t C) ctx h
    partial cs exact sz :
  fresh src ->
  Src.blocking src = false ->
  Src.buf src = header_lines h ++ partial ->
  valid_header h = true ->
  no_byte LF partial = true ->
  Src.pending src = [] :: cs ->
  Src.st_size src exact = Some sz ->
  exists m',
    i_stream_metawrap_stat (i_stream_create_metawrap src cb ctx) exact
    = Ret (0, m') /\
    statbuf_st_size m' = -1 /\
    context m' = feed cb h ctx /\
    in_metadata m' = true.
Proof.
  intros Hf Hbl Hbuf Hv Hlf Hp Hsize.
  pose proof Hf as (Hpos & _).
  set (m0 := i_stream_create_metawrap src cb ctx).
  destruct (starved_read (set_statbuf_st_size m0 sz) h partial cs
              (create_heading src cb ctx Hf) Hv)
    as (m' & Hrun & Hctx & Him & _); try assumption.
  { unfold Src.unread. simpl. rewrite Hpos. exact Hbuf. }
  unfold i_stream_metawrap_stat, Src.i_stream_stat.
  change (Src.st_size (parent m0) exact) with (Src.st_size src exact).
  rewrite Hsize.
  change (in_metadata (set_statbuf_st_size m0 sz)) with true. cbv iota.
  rewrite Hrun. cbn [bind Z.ltb Z.eqb Z.compare].
  eexists. split; [reflexivity|]. simpl. repeat split; assumption.
Qed.

Lemma X16_stat_size_unknown_witness :
  exists m',
    i_stream_metawrap_stat
      (i_stream_create_metawrap
         (nb_source (txt "a:b" ++ LF :: txt "c") [[]; txt ":d" ++ [LF; LF]] 0)
         record_call [])
      true
    = Ret (0, m') /\
    statbuf_st_size m' = -1 /\
    context m' = feed record_call [(txt "a", txt "b")] [] /\
    in_metadata m' = true.
Proof.
  apply (X16_stat_size_unknown _ record_call [] [(txt "a", txt "b")]
           (txt "c") [txt ":d" ++ [LF; LF]] true 9).
  - fresh_source.
  - reflexivity.
  - reflexivity.
  - reflexivity.
  - reflexivity.
  - reflexivity.
  - reflexivity.
Defined.

(** ** Stat on a header that fails *)

(** On a blocking source the read that stat forces goes to the end of
    the header; when the header does not end with an empty line that
    read fails and stat answers -1. *)
Lemma stat_failing_header {C} src (cb : metawrap_callback_t C) ctx ctx' e
    exact sz :
  fresh src ->
  Src.blocking src = true ->
  parses cb (Src.content src) ctx ctx' e ->
  (forall B, e <> HComplete B) ->
  Src.st_size src exact = Some sz ->
  exists m',
    i_stream_metawrap_stat (i_stream_create_metawrap src cb ctx) exact
    = Ret (-1, m') /\
    context m' = ctx' /\
    in_metadata m' = true /\
    stream_errno m'
    = match e with HFormat _ => EINVAL | _ => Src.fail_errno src end /\
    statbuf_st_size m' = sz.
Proof.
  intros Hf Hbl Hparse He Hsize.
  pose proof (create_heading src cb ctx Hf) as Hh.
  pose proof Hf as (Hpos & Hsz & Hwb).
  set (m0 := i_stream_create_metawrap src cb ctx) in *.
  unfold i_stream_metawrap_stat, Src.i_stream_stat.
  change (Src.st_size (parent m0) exact) with (Src.st_size src exact).
  rewrite Hsize.
  change (in_metadata (set_statbuf_st_size m0 sz)) with true. cbv iota.
  set (mS := set_statbuf_st_size m0 sz).
  assert (HhS : heading mS) by exact Hh.
  rewrite (heading_read mS HhS).
  set (m1 := set_stream_errno (set_eof mS false) 0).
  destruct (header_loop_spec cb (Src.content src) ctx ctx' e Hparse
              (header_fuel (parent mS)) m1)
    as (p' & Hcont & Hstat & Hsuf & Hwf' & Hcase);
    try reflexivity.
  { unfold rest. simpl. rewrite Hpos. reflexivity. }
  { apply HhS. }
  { exact Hwb. }
  { unfold header_fuel. simpl. rewrite Hpos. lia. }
  simpl in Hcont, Hstat, Hsuf.
  destruct Hcase as [Hdone | (ctx1 & _ & _ & _ & Hnb)].
  2:{ destruct Hstat as (_ & _ & E). congruence. }
  destruct e as [B|r|].
  - exfalso. apply (He B). reflexivity.
  - destruct Hdone as (Hloop & _). rewrite Hloop. cbn [bind].
    eexists. split; [reflexivity|]. simpl. repeat split.
  - destruct Hdone as (Hloop & _). rewrite Hloop. cbn [bind].
    change (v_offset _) with 0 at 1. cbn [Z.eqb negb Z.leb Z.compare bind].
    rewrite if_ret. cbn [Z.ltb Z.compare].
    eexists. split; [reflexivity|].
    match goal with
    | |- context [if ?b then _ else _] => destruct b
    end; simpl; repeat split.
Qed.

(** X17: on a stream just created over a blocking source, when the
    header has a line without colon the read that stat forces fails,
    and stat answers -1: the error code is [EINVAL], the callback has
    been called for the lines before the bad one and the stream is left
    in its header. *)
Theorem X17_stat_format_error {C} src (cb : metawrap_callback_t C) ctx h bad
    after exact sz :
  fresh src ->
  Src.blocking src = true ->
  Src.content src = header_lines h ++ bad ++ LF :: after ->
  valid_header h = true ->
  no_byte LF bad = true -> no_byte COLON bad = true ->
  cstr_empty bad = false ->
  Src.st_size src exact = Some sz ->
  exists m',
    i_stream_metawrap_stat (i_stream_create_metawrap src cb ctx) exact
    = Ret (-1, m') /\
    stream_errno m' = EINVAL /\
    context m' = feed cb h ctx /\
    in_metadata m' = true.
Proof.
  intros Hf Hbl Hc Hv Hlf Hcol Hne Hsize.
  destruct (stat_failing_header src cb ctx (feed cb h ctx) (HFormat after)
              exact sz Hf Hbl)
    as (m' & Hrun & Hctx & Him & Herr & _); try assumption.
  - rewrite Hc. apply parses_format; assumption.
  - intros B. discriminate.
  - exists m'. auto.
Qed.

Lemma X17_stat_format_error_witness :
  exists m',
    i_stream_metawrap_stat
      (i_stream_create_metawrap
         (mem_source (txt "a:b" ++ LF :: txt "badline" ++ LF :: txt "BODY"))
         record_call [])
      true
    = Ret (-1, m') /\
    stream_errno m' = EINVAL /\
    context m' = feed record_call [(txt "a", txt "b")] [] /\
    in_metadata m' = true.
Proof.
  apply (X17_stat_format_error _ record_call [] [(txt "a", txt "b")]
           (txt "badline") (txt "BODY") true 16).
  - fresh_source.
  - reflexivity.
  - reflexivity.
  - reflexivity.
  - reflexivity.
  - reflexivity.
  - reflexivity.
  - reflexivity.
Defined.

(** X18: on a stream just created over a blocking source whose content
    ends before the empty line of the header, the read that stat forces
    fails and stat answers -1, with the error code of the source's end
    in [stream_errno]; the callback has been called for the complete
    lines and the stream is left in its header. *)
Theorem X18_stat_truncated_header {C} src (cb : metawrap_callback_t C) ctx h
    partial exact sz :
  fresh src ->
  Src.blocking src = true ->
  Src.content src = header_lines h ++ partial ->
  valid_header h = true ->
  no_byte LF partial = true ->
  Src.st_size src exact = Some sz ->
  exists m',
    i_stream_metawrap_stat (i_stream_create_metawrap src cb ctx) exact
    = Ret (-1, m') /\
    stream_errno m' = Src.fail_errno src /\
    context m' = feed cb h ctx /\
    in_metadata m' = true.
Proof.
  intros Hf Hbl Hc Hv Hlf Hsize.
  destruct (stat_failing_header src cb ctx (feed cb h ctx) HTruncated
              exact sz Hf Hbl)
    as (m' & Hrun & Hctx & Him & Herr & _); try assumption.
  - rewrite Hc. apply parses_cut_short; assumption.
  - intros B. discriminate.
  - exists m'. auto.
Qed.

Lemma X18_stat_truncated_header_witness :
  exists m',
    i_stream_metawrap_stat
      (i_stream_create_metawrap
         (Src.mk [] [txt "a:b" ++ LF :: txt "c"; txt ":d"] 5
                 (fun _ => Some 7) true false 8192 0 false 0)
         record_call [])
      false
    = Ret (-1, m') /\
    stream_errno m' = 5 /\
    context m' = feed record_call [(txt "a", txt "b")] [] /\
    in_metadata m' = true.
Proof.
  apply (X18_stat_truncated_header
           (Src.mk [] [txt "a:b" ++ LF :: txt "c"; txt ":d"] 5
                   (fun _ => Some 7) true false 8192 0 false 0)
           record_call [] [(txt "a", txt "b")] (txt "c:d") false 7).
  - fresh_source.
  - reflexivity.
  - reflexivity.
  - reflexivity.
  - reflexivity.
  - reflexivity.
Defined.

(** ** A blocking source that has nothing yet *)




